(** * PartyScore Karaoke: the vocal analysis and scoring engine

    A shallow embedding of [frontend/src/app/app.component.ts].

    JavaScript's [number] is IEEE 754 binary64.  The component's numeric
    code is written once, over an interface [Number] of the operations it
    uses, and read at two carriers:

    - [Binary64]: [spec_float] at precision 53 and [emax] 1024, the
      arithmetic the program really runs, with NaN, infinities, signed
      zeros and round-to-nearest-even; it evaluates.
    - [Ideal]: the real numbers, i.e. the same code without rounding,
      overflow or NaN (a quotient by zero has no meaning there); used
      for the laws of the scoring curves and of the note mapper.

    What holds by the shape of the code is stated for every carrier;
    what depends on NaN, on signs or on integers is proved on [Binary64];
    what depends on the order of the reals is proved on [Ideal] and
    checked on [Binary64] by evaluation.

    Conventions of the embedding:
    - an array of numbers is a [list]; a loop over it is a fold;
    - the sample rate is an integer number of Hz, and so are the lags;
    - [x ** 2] is the product [x * x];
    - [null] is [None];
    - the component's fields are a record, its methods and callbacks
      functions on that record, and what the browser does to it (frames,
      timer ticks, destruction) a list of events;
    - [Number(text)], which reads the score of a challenge link, is the
      browser's: [readChallengeFromUrl] takes it as a parameter. *)

From Stdlib Require Import String Ascii.
From Stdlib Require Import ZArith List Bool Lia.
From Stdlib Require Import Reals Lra.
From Stdlib Require Import SpecFloat.
From Stdlib Require Import DecimalString.
From Stdlib Require Import Sorted Permutation.
Import ListNotations.

Set Implicit Arguments.

(** ** The numeric interface *)

Module JS.

(** The operations of [number] and [Math] the component uses. *)
Class Number (T : Type) : Type := {
  ofZ : Z -> T;                 (* an integer literal or counter *)
  add : T -> T -> T;
  sub : T -> T -> T;
  mul : T -> T -> T;
  div : T -> T -> T;
  sqrt : T -> T;                (* Math.sqrt *)
  abs : T -> T;                 (* Math.abs *)
  ltb : T -> T -> bool;         (* a < b;  b > a is [ltb a b] *)
  leb : T -> T -> bool;         (* a <= b; b >= a is [leb a b] *)
  max : T -> T -> T;            (* Math.max *)
  min : T -> T -> T;            (* Math.min *)
  round : T -> T;               (* Math.round *)
  floorZ : T -> Z;              (* Math.floor of a finite value *)
  toZ : T -> option Z;          (* the value, when it is an integer *)
  isFinite : T -> bool;         (* Number.isFinite *)
  semitone : T                  (* Math.pow(2, 1 / 12) *)
}.

(** [Math.log2], kept apart: ECMAScript leaves its binary64 results to
    the implementation, so only the exact carrier provides it, as the
    logarithm of a positive argument. *)
Class Log2 (T : Type) : Type := { log2 : T -> T }.

(** A decimal literal [p / q], [q] a power of ten: the correctly rounded
    quotient of two exactly representable integers is the double the
    literal denotes. *)
Definition lit {T} `{Number T} (p q : Z) : T := div (ofZ p) (ofZ q).

(** Truthiness of a number: neither zero nor NaN. *)
Definition truthy {T} `{Number T} (x : T) : bool :=
  ltb (ofZ 0) x || ltb x (ofZ 0).

End JS.
Import JS.

(** ** Binary64 *)

Module Binary64.

Definition prec : Z := 53.
Definition emax : Z := 1024.

Definition float := spec_float.

Definition nan : float := S754_nan.
Definition of_Z (z : Z) : float := binary_normalize prec emax z 0 false.

(** Signed integer mantissa of a finite value. *)
Definition signed (s : bool) (m : positive) : Z := cond_Zopp s (Zpos m).

(** [Math.max]: NaN if either argument is, and [+0] above [-0]. *)
Definition fmax (x y : float) : float :=
  match x, y with
  | S754_nan, _ | _, S754_nan => S754_nan
  | S754_zero sx, S754_zero sy => S754_zero (sx && sy)
  | _, _ => if SFltb x y then y else x
  end.

(** [Math.min]: NaN if either argument is, and [-0] below [+0]. *)
Definition fmin (x y : float) : float :=
  match x, y with
  | S754_nan, _ | _, S754_nan => S754_nan
  | S754_zero sx, S754_zero sy => S754_zero (sx || sy)
  | _, _ => if SFltb y x then y else x
  end.

(** [Math.floor] of a finite value, as an integer: the mantissa shifted
    by the exponent, rounding down.  (It is applied to quotients of
    integers by non-zero constants only, which are finite.) *)
Definition floor_Z (x : float) : Z :=
  match x with
  | S754_finite s m e => Z.shiftl (signed s m) e
  | _ => 0
  end.

(** [Math.round]: the integer nearest to [x], halves going up; the sign
    of a zero result is the sign of [x]; NaN, infinities and integers
    are returned as they are. *)
Definition fround (x : float) : float :=
  match x with
  | S754_finite s m e =>
      if (0 <=? e)%Z then x
      else
        let z := Z.shiftl (2 * signed s m + 2 ^ (- e)) (e - 1) in
        if (z =? 0)%Z then S754_zero s else of_Z z
  | _ => x
  end.

(** The integer a finite value denotes, if it denotes one. *)
Definition to_Z (x : float) : option Z :=
  match x with
  | S754_zero _ => Some 0%Z
  | S754_finite s m e =>
      if (0 <=? e)%Z then Some (signed s m * 2 ^ e)%Z
      else if (Zpos m mod 2 ^ (- e) =? 0)%Z
           then Some (Z.shiftl (signed s m) e) else None
  | _ => None
  end.

(** [Number.isFinite]. *)
Definition is_finite (x : float) : bool :=
  match x with
  | S754_zero _ | S754_finite _ _ _ => true
  | _ => false
  end.

(** [Math.pow(2, 1 / 12)] evaluates to [1.0594630943592953], the double
    [0x1.0f38f92d97963p+0] nearest to the twelfth root of two. *)
Definition pow2_12th : float := S754_finite false 4771397596969315 (-52).

#[global] Instance number : Number float := {
  ofZ := of_Z;
  add := SFadd prec emax;
  sub := SFsub prec emax;
  mul := SFmul prec emax;
  div := SFdiv prec emax;
  sqrt := SFsqrt prec emax;
  abs := SFabs;
  ltb := SFltb;
  leb := SFleb;
  max := fmax;
  min := fmin;
  round := fround;
  floorZ := floor_Z;
  toZ := to_Z;
  isFinite := is_finite;
  semitone := pow2_12th
}.

End Binary64.

(** ** Exact arithmetic *)

Module Ideal.

Definition Rltb (x y : R) : bool := if Rlt_dec x y then true else false.
Definition Rleb (x y : R) : bool := if Rle_dec x y then true else false.

Definition RtoZ (x : R) : option Z :=
  if Req_dec_T (IZR (Int_part x)) x then Some (Int_part x) else None.

#[global] Instance number : Number R := {
  ofZ := IZR;
  add := Rplus;
  sub := Rminus;
  mul := Rmult;
  div := Rdiv;
  sqrt := R_sqrt.sqrt;
  abs := Rabs;
  ltb := Rltb;
  leb := Rleb;
  max := Rmax;
  min := Rmin;
  round := fun x => IZR (Int_part (x + / 2));
  floorZ := Int_part;
  toZ := RtoZ;
  isFinite := fun _ => true;
  semitone := Rpower 2 (/ 12)
}.

#[global] Instance log2 : Log2 R := { log2 := fun x => (ln x / ln 2)%R }.

End Ideal.

(** ** The engine, over any carrier *)

Module Engine.
Section Carrier.

Context {T : Type} `{Number T}.

(** [clamp01(v)]: [Math.max(0, Math.min(1, v))]. *)
Definition clamp01 (v : T) : T := max (ofZ 0) (min (ofZ 1) v).

(** [xs.length], as a number. *)
Definition len (xs : list T) : T := ofZ (Z.of_nat (length xs)).

(** [xs.reduce((a, b) => a + b, 0)], also the [mean += buf[i]] loop. *)
Definition sum (xs : list T) : T := fold_left add xs (ofZ 0).

(** The [sum += v * v] loop, shared by [loop] and [estimatePitchHz]. *)
Definition sumSquares (buf : list T) : T :=
  fold_left (fun acc v => add acc (mul v v)) buf (ofZ 0).

Definition rootMeanSquare (buf : list T) : T :=
  sqrt (div (sumSquares buf) (len buf)).

(** *** Per-frame analysis: [loop], lines 222-229 *)

(** [this.energy]: the RMS boosted by 4.0 and clamped. *)
Definition frameEnergy (buf : list T) : T :=
  clamp01 (mul (rootMeanSquare buf) (ofZ 4)).

(** *** [estimatePitchHz] *)

Definition minHz : T := ofZ 80.
Definition maxHz : T := ofZ 800.

Definition minLag (sampleRate : Z) : Z :=
  floorZ (div (ofZ sampleRate) maxHz).
Definition maxLag (sampleRate : Z) : Z :=
  floorZ (div (ofZ sampleRate) minHz).

(** The inner loop: [corr += (buf[i] - mean) * (buf[i + lag] - mean)]
    for [0 <= i < buf.length - lag]. *)
Definition correlation (buf : list T) (mean : T) (lag : nat) : T :=
  fold_left
    (fun corr i =>
       let a := sub (nth i buf (ofZ 0)) mean in
       let b := sub (nth (i + lag) buf (ofZ 0)) mean in
       add corr (mul a b))
    (seq 0 (length buf - lag)) (ofZ 0).

(** The values [lo, lo + 1, ..., hi] of a counting [for] loop. *)
Definition upto (lo hi : Z) : list Z :=
  map (fun k => (lo + Z.of_nat k)%Z) (seq 0 (Z.to_nat (hi - lo + 1))).

(** One turn of the outer loop on [(bestLag, bestCorr)]. *)
Definition scanStep (buf : list T) (mean : T) (best : Z * T) (lag : Z)
  : Z * T :=
  let corr := correlation buf mean (Z.to_nat lag) in
  if ltb (snd best) corr then (lag, corr) else best.

Definition scanLags (buf : list T) (mean : T) (ls : list Z) : Z * T :=
  fold_left (scanStep buf mean) ls ((-1)%Z, ofZ 0).

Definition estimatePitchHz (buf : list T) (sampleRate : Z) : option T :=
  let rms := rootMeanSquare buf in
  if ltb rms (lit 15 1000) then None
  else
    let mean := div (sum buf) (len buf) in
    let bestLag :=
      fst (scanLags buf mean (upto (minLag sampleRate) (maxLag sampleRate))) in
    if (bestLag <=? 0)%Z then None
    else
      let hz := div (ofZ sampleRate) (ofZ bestLag) in
      if negb (isFinite hz) then None else Some hz.

(** What one frame contributes: [this.energy] and [this.pitchHz]. *)
Record FrameMeasurement : Type := {
  m_energy : T;
  m_pitchHz : option T
}.

Definition analyze (buf : list T) (sampleRate : Z) : FrameMeasurement :=
  {| m_energy := frameEnergy buf;
     m_pitchHz := estimatePitchHz buf sampleRate |}.

(** *** Scoring *)

(** [pitches.filter(p => p >= 80 && p <= 800)]. *)
Definition inVocalBand (p : T) : bool := leb (ofZ 80) p && leb p (ofZ 800).
Definition cleaned (pitches : list T) : list T := filter inVocalBand pitches.

(** The population standard deviation computed in
    [computePitchStability]: [mean], [variance] with
    [(p - mean) ** 2], [Math.sqrt]. *)
Definition populationStd (xs : list T) : T :=
  let mean := div (sum xs) (len xs) in
  let variance :=
    div (fold_left (fun acc p => add acc (mul (sub p mean) (sub p mean)))
                   xs (ofZ 0))
        (len xs) in
  sqrt variance.

(** [clamp01(1 - (std - 15) / 85)]. *)
Definition stabilityOfStd (std : T) : T :=
  clamp01 (sub (ofZ 1) (div (sub std (ofZ 15)) (ofZ 85))).

Definition computePitchStability (pitches : list T) : T :=
  if (length pitches <? 8)%nat then lit 35 100
  else
    let c := cleaned pitches in
    if (length c <? 8)%nat then lit 35 100
    else stabilityOfStd (populationStd c).

(** [b > a ? b / a : a / b]. *)
Definition ratio (a b : T) : T := if ltb a b then div b a else div a b.

(** The loop counting the adjacent pairs at least a semitone apart. *)
Fixpoint countMoves (xs : list T) : nat :=
  match xs with
  | a :: (b :: _) as rest =>
      ((if leb semitone (ratio a b) then 1 else 0) + countMoves rest)%nat
  | _ => 0%nat
  end.

(** [moves / Math.max(1, cleaned.length - 1)]. *)
Definition moveRate (c : list T) : T :=
  div (ofZ (Z.of_nat (countMoves c)))
      (max (ofZ 1) (ofZ (Z.of_nat (length c) - 1))).

(** [clamp01(1 - Math.abs(moveRate - 0.18) / 0.18)]. *)
Definition varietyOfRate (rate : T) : T :=
  clamp01 (sub (ofZ 1) (div (abs (sub rate (lit 18 100))) (lit 18 100))).

Definition computePitchVariety (pitches : list T) : T :=
  if (length pitches <? 8)%nat then lit 2 10
  else
    let c := cleaned pitches in
    if (length c <? 8)%nat then lit 2 10
    else varietyOfRate (moveRate c).

Record ScoreBreakdown : Type := {
  score : T;
  energy : T;
  stability : T;
  variety : T
}.

(** [energySamples.length ? sum / length : 0]. *)
Definition avgEnergy (energySamples : list T) : T :=
  match energySamples with
  | [] => ofZ 0
  | _ => div (sum energySamples) (len energySamples)
  end.

(** [energySamples.length ? Math.max(...energySamples) : 0]. *)
Definition peakEnergy (energySamples : list T) : T :=
  match energySamples with
  | [] => ofZ 0
  | x :: rest => fold_left max rest x
  end.

Definition energyScore (energySamples : list T) : T :=
  clamp01 (add (mul (avgEnergy energySamples) (lit 75 100))
               (mul (peakEnergy energySamples) (lit 25 100))).

Definition computeScore (energySamples pitchSamples : list T)
  : ScoreBreakdown :=
  let energyScore := energyScore energySamples in
  let stabilityScore := computePitchStability pitchSamples in
  let varietyScore := computePitchVariety pitchSamples in
  let raw := add (add (mul energyScore (lit 45 100))
                      (mul stabilityScore (lit 35 100)))
                 (mul varietyScore (lit 20 100)) in
  {| score := round (mul (clamp01 raw) (ofZ 100));
     energy := round (mul energyScore (ofZ 100));
     stability := round (mul stabilityScore (ofZ 100));
     variety := round (mul varietyScore (ofZ 100)) |}.

End Carrier.

End Engine.
Import Engine.

(** ** [hzToNote] *)

Module NoteMapper.
Section Carrier.

Context {T : Type} `{Number T} `{Log2 T}.

Definition A4 : T := ofZ 440.

Definition noteNames : list string :=
  ["C"; "C#"; "D"; "D#"; "E"; "F"; "F#"; "G"; "G#"; "A"; "A#"; "B"]%string.

(** [noteNames[k]] for an integer [k]: [undefined] outside the array. *)
Definition nameAt (k : Z) : option string :=
  if (k <? 0)%Z then None else nth_error noteNames (Z.to_nat k).

(** Decimal text of an integer, as a template literal prints it. *)
Definition showZ (z : Z) : string := NilZero.string_of_int (Z.to_int z).

(** [`${name}${octave}`]; an [undefined] name prints as such. *)
Definition template (name : option string) (octave : Z) : string :=
  ((match name with Some n => n | None => "undefined" end)
     ++ showZ octave)%string.

(** [midi = 69 + Math.round(12 * Math.log2(hz / A4))]. *)
Definition midiOf (hz : T) : T :=
  add (ofZ 69) (round (mul (ofZ 12) (log2 (div hz A4)))).

(** The index [(midi + 1200) % 12]: [%] keeps the sign of its left
    operand, which is [Z.rem].  The result is [None] when [midi] is not
    a finite number, where JavaScript prints [undefined] followed by
    [NaN] or an infinity. *)
Definition hzToNote (hz : T) : option string :=
  let midi := midiOf hz in
  match toZ (add midi (ofZ 1200)) with
  | Some k =>
      let name := nameAt (Z.rem k 12) in
      let octave := (floorZ (div midi (ofZ 12)) - 1)%Z in
      Some (template name octave)
  | None => None
  end.


End Carrier.

End NoteMapper.

(** ** The component's state and its round lifecycle *)

Module Session.

Inductive Stage : Type := onboarding | ready | singing | results.
Inductive Mode : Type := local | challenge.

Record ScoreEntry (T : Type) : Type := {
  name : string;
  score : T;
  ts : T;
  mode : Mode
}.

Record RoundSummary (T : Type) : Type := {
  breakdown : ScoreBreakdown (T := T);
  summary_ts : T
}.

(** The fields of [AppComponent] the round lifecycle reads or writes.
    [analyser] and [timeData] record whether the field is set;
    [audioCtx] holds the context's sample rate; [roundTimerId] and
    [rafId] record whether the interval or the animation frame is
    armed.  The display-only [error] and [pitchNote] are left out. *)
Record App (T : Type) : Type := {
  stage : Stage;
  playerName : string;
  challengeScore : option T;
  energy : T;
  pitchHz : option T;
  levelBar : T;
  secondsLeft : Z;
  lastRound : option (RoundSummary T);
  leaderboard : list (ScoreEntry T);
  personalBest : option (ScoreEntry T);
  audioCtx : option Z;
  analyser : bool;
  timeData : bool;
  rafId : bool;
  roundTimerId : bool;
  energySamples : list T;
  pitchSamples : list T
}.

Arguments Build_App {T}.
Arguments Build_ScoreEntry {T}.
Arguments Build_RoundSummary {T}.

Section Lifecycle.

Context {T : Type} `{Number T}.

(** The field initialisers of the class ([loadFromStorage] finding
    nothing, no challenge link). *)
Definition initial : App T :=
  {| stage := onboarding; playerName := ""; challengeScore := None;
     energy := ofZ 0; pitchHz := None; levelBar := ofZ 0;
     secondsLeft := 10; lastRound := None;
     leaderboard := []; personalBest := None;
     audioCtx := None; analyser := false; timeData := false;
     rafId := false; roundTimerId := false;
     energySamples := []; pitchSamples := [] |}.

(** [enableMic], when [getUserMedia] resolves; the first [loop] call
    is the first frame. *)
Definition enableMic (sampleRate : Z) (s : App T) : App T :=
  {| stage := ready; playerName := playerName s;
     challengeScore := challengeScore s;
     energy := energy s; pitchHz := pitchHz s; levelBar := levelBar s;
     secondsLeft := secondsLeft s; lastRound := lastRound s;
     leaderboard := leaderboard s; personalBest := personalBest s;
     audioCtx := Some sampleRate; analyser := true; timeData := true;
     rafId := rafId s; roundTimerId := roundTimerId s;
     energySamples := energySamples s;
     pitchSamples := pitchSamples s |}.

Definition startRound (s : App T) : App T :=
  if negb (analyser s) || negb (timeData s) then s
  else
    {| stage := singing; playerName := playerName s;
       challengeScore := challengeScore s;
       energy := energy s; pitchHz := pitchHz s;
       levelBar := levelBar s;
       secondsLeft := 10; lastRound := None;
       leaderboard := leaderboard s; personalBest := personalBest s;
       audioCtx := audioCtx s; analyser := analyser s;
       timeData := timeData s;
       rafId := rafId s; roundTimerId := true;
       energySamples := []; pitchSamples := [] |}.

Definition stopRound (s : App T) : App T :=
  {| stage := if analyser s then ready else onboarding;
     playerName := playerName s;
     challengeScore := challengeScore s;
     energy := energy s; pitchHz := pitchHz s; levelBar := levelBar s;
     secondsLeft := secondsLeft s; lastRound := lastRound s;
     leaderboard := leaderboard s; personalBest := personalBest s;
     audioCtx := audioCtx s; analyser := analyser s;
     timeData := timeData s;
     rafId := rafId s; roundTimerId := false;
     energySamples := energySamples s;
     pitchSamples := pitchSamples s |}.

(** *** The leaderboard update of [finishRound] *)

(** [(a, b) => b.score - a.score || b.ts - a.ts]. *)
Definition compareEntries (a b : ScoreEntry T) : T :=
  let d := sub (score b) (score a) in
  if truthy d then d else sub (ts b) (ts a).

(** [Array.prototype.sort]: stable, and [a] goes after [b] when the
    comparator is positive on [(a, b)].  For a consistent comparator
    this fixes the result; it is computed here by insertion. *)
Fixpoint insertBy {A : Type} (cmp : A -> A -> T) (x : A) (l : list A)
  : list A :=
  match l with
  | [] => [x]
  | y :: l' =>
      if ltb (ofZ 0) (cmp x y) then y :: insertBy cmp x l' else x :: l
  end.

Definition sortBy {A : Type} (cmp : A -> A -> T) (l : list A) : list A :=
  fold_right (insertBy cmp) [] l.

(** [unshift(entry)], [sort], [slice(0, 25)]. *)
Definition updateLeaderboard (entry : ScoreEntry T)
    (board : list (ScoreEntry T)) : list (ScoreEntry T) :=
  firstn 25 (sortBy compareEntries (entry :: board)).

Definition isSpace (c : ascii) : bool :=
  match nat_of_ascii c with
  | 9 | 10 | 11 | 12 | 13 | 32 => true
  | _ => false
  end%nat.

Fixpoint trimStart (s : string) : string :=
  match s with
  | String c r => if isSpace c then trimStart r else s
  | EmptyString => s
  end.

Fixpoint trimEnd (s : string) : string :=
  match s with
  | String c r =>
      match trimEnd r with
      | EmptyString => if isSpace c then EmptyString else String c EmptyString
      | r' => String c r'
      end
  | EmptyString => s
  end.

(** [(this.playerName || 'Player').trim().slice(0, 18)], on ASCII. *)
Definition entryName (playerName : string) : string :=
  let n := match playerName with
           | EmptyString => "Player"%string
           | _ => playerName
           end in
  String.substring 0 18 (trimEnd (trimStart n)).

(** [finishRound]; [now1] and [now2] are its two [Date.now()]
    readings. *)
Definition finishRound (now1 now2 : T) (s : App T) : App T :=
  let sc := computeScore (energySamples s) (pitchSamples s) in
  let entry :=
    {| name := entryName (playerName s);
       score := Engine.score sc;
       ts := now2;
       mode := match challengeScore s with
               | Some _ => challenge
               | None => local
               end |} in
  {| stage := results; playerName := playerName s;
     challengeScore := challengeScore s;
     energy := energy s; pitchHz := pitchHz s; levelBar := levelBar s;
     secondsLeft := secondsLeft s;
     lastRound := Some {| breakdown := sc; summary_ts := now1 |};
     leaderboard := updateLeaderboard entry (leaderboard s);
     personalBest :=
       match personalBest s with
       | Some best =>
           if ltb (score best) (score entry) then Some entry
           else Some best
       | None => Some entry
       end;
     audioCtx := audioCtx s; analyser := analyser s;
     timeData := timeData s;
     rafId := rafId s; roundTimerId := false;
     energySamples := energySamples s;
     pitchSamples := pitchSamples s |}.

(** The interval callback armed by [startRound]; it fires only while
    the interval is armed. *)
Definition tick (now1 now2 : T) (s : App T) : App T :=
  if negb (roundTimerId s) then s
  else
    let s1 :=
      {| stage := stage s; playerName := playerName s;
         challengeScore := challengeScore s;
         energy := energy s; pitchHz := pitchHz s;
         levelBar := levelBar s;
         secondsLeft := secondsLeft s - 1; lastRound := lastRound s;
         leaderboard := leaderboard s; personalBest := personalBest s;
         audioCtx := audioCtx s; analyser := analyser s;
         timeData := timeData s;
         rafId := rafId s; roundTimerId := roundTimerId s;
         energySamples := energySamples s;
         pitchSamples := pitchSamples s |} in
    if (secondsLeft s1 <=? 0)%Z then finishRound now1 now2 s1 else s1.

(** The sample rate [loop] hands to the estimator:
    [this.audioCtx?.sampleRate ?? 44100]. *)
Definition rateOf (s : App T) : Z :=
  match audioCtx s with Some r => r | None => 44100%Z end.

(** [loop], given the frame [getFloatTimeDomainData] delivered. *)
Definition loop (buf : list T) (s : App T) : App T :=
  if negb (analyser s) || negb (timeData s) then s
  else
    let e := frameEnergy buf in
    let rate := rateOf s in
    let pitch := estimatePitchHz buf rate in
    let voiced :=
      match pitch with Some p => truthy p | None => false end in
    let recording :=
      match stage s with singing => true | _ => false end in
    {| stage := stage s; playerName := playerName s;
       challengeScore := challengeScore s;
       energy := e; pitchHz := pitch;
       levelBar := add (mul (levelBar s) (lit 85 100))
                       (mul e (lit 15 100));
       secondsLeft := secondsLeft s; lastRound := lastRound s;
       leaderboard := leaderboard s; personalBest := personalBest s;
       audioCtx := audioCtx s; analyser := analyser s;
       timeData := timeData s;
       rafId := true; roundTimerId := roundTimerId s;
       energySamples :=
         if recording then energySamples s ++ [e] else energySamples s;
       pitchSamples :=
         match pitch with
         | Some p =>
             if recording && voiced then pitchSamples s ++ [p]
             else pitchSamples s
         | None => pitchSamples s
         end |}.

Definition stopAudio (s : App T) : App T :=
  {| stage := stage s; playerName := playerName s;
     challengeScore := challengeScore s;
     energy := energy s; pitchHz := pitchHz s; levelBar := levelBar s;
     secondsLeft := secondsLeft s; lastRound := lastRound s;
     leaderboard := leaderboard s; personalBest := personalBest s;
     audioCtx := None; analyser := false; timeData := timeData s;
     rafId := false; roundTimerId := roundTimerId s;
     energySamples := energySamples s;
     pitchSamples := pitchSamples s |}.

Definition ngOnDestroy (s : App T) : App T := stopAudio (stopRound s).

(** What a frame adds to [pitchSamples] during a round: its pitch, when
    there is one and it is truthy. *)
Definition voicedPitch (rate : Z) (buf : list T) : list T :=
  match estimatePitchHz buf rate with
  | Some p => if truthy p then [p] else []
  | None => []
  end.

(** What can happen to the component, and its effect. *)
Inductive Event : Type :=
| EnableMic (sampleRate : Z)
| StartRound
| StopRound
| Tick (now1 now2 : T)
| Frame (buf : list T)
| Destroy.

Definition step (s : App T) (ev : Event) : App T :=
  match ev with
  | EnableMic rate => enableMic rate s
  | StartRound => startRound s
  | StopRound => stopRound s
  | Tick now1 now2 => tick now1 now2 s
  | Frame buf => loop buf s
  | Destroy => ngOnDestroy s
  end.

Definition run (s : App T) (evs : list Event) : App T :=
  fold_left step evs s.

(** The events that leave the audio pipeline as it is. *)
Definition inRound (ev : Event) : bool :=
  match ev with
  | Tick _ _ | Frame _ => true
  | _ => false
  end.

End Lifecycle.

End Session.

(** ** Sample inputs *)

Module Samples.
Import Binary64.

(** Ten frames of energy 0.6 and pitch 200 Hz. *)
Definition steadyEnergy : list float := repeat (lit 6 10) 10.
Definition steadyPitch : list float := repeat (ofZ 200) 10.

(** A frame holding a NaN sample, and the empty frame. *)
Definition nanFrame : list float := [nan; lit 5 10; lit (-5) 10].

(** A frame clipping at both rails. *)
Definition clippedFrame : list float :=
  [ofZ 1; ofZ (-1); ofZ 1; ofZ (-1)].

(** Two unit impulses 55 samples apart. *)
Definition impulsePair : list float :=
  ofZ 1 :: repeat (ofZ 0) 54 ++ [ofZ 1].


(** A board out of order, and a new entry tying with its best score. *)
Definition entryOf (score ts : Z) : Session.ScoreEntry float :=
  {| Session.name := "Player"; Session.score := ofZ score;
     Session.ts := ofZ ts; Session.mode := Session.local |}.

Definition looseBoard : list (Session.ScoreEntry float) :=
  [entryOf 50 10; entryOf 70 20; entryOf 62 15].

(** A component about to finish a round of ten steady frames, with the
    loose board on file. *)
Definition roundToFinish : Session.App float :=
  {| Session.stage := Session.singing; Session.playerName := "Ada";
     Session.challengeScore := None;
     Session.energy := lit 6 10; Session.pitchHz := Some (ofZ 200);
     Session.levelBar := lit 6 10;
     Session.secondsLeft := 0; Session.lastRound := None;
     Session.leaderboard := looseBoard; Session.personalBest := None;
     Session.audioCtx := Some 44100%Z; Session.analyser := true;
     Session.timeData := true;
     Session.rafId := true; Session.roundTimerId := true;
     Session.energySamples := steadyEnergy;
     Session.pitchSamples := steadyPitch |}.

(** The sample rates audio hardware commonly runs at. *)
Definition standardRates : list Z :=
  [8000; 11025; 16000; 22050; 32000; 44100; 48000; 88200; 96000;
   176400; 192000]%Z.



End Samples.

(** ** The vocabulary of the statements *)

Module Vocabulary.

(** *** On binary64 *)

(** A field of the breakdown lies in [0, 100]. *)
Definition percent (x : Binary64.float) : bool :=
  leb (ofZ 0) x && leb x (ofZ 100).

(** The energy of a frame lies in [0, 1]. *)
Definition inUnitInterval (x : Binary64.float) : bool :=
  leb (ofZ 0) x && leb x (ofZ 1).

(** What the scoring filter keeps of a single pitch. *)
Definition keptByScoring (hz : Binary64.float) : list Binary64.float :=
  cleaned [hz].

(** At the rate [sampleRate] the lag bounds are the integer quotients and
    every lag of the search range gives a frequency of at least 80 Hz. *)
Definition rangeHolds (sampleRate : Z) : bool :=
  (minLag (T := Binary64.float) sampleRate =? sampleRate / 800)%Z
  && (maxLag (T := Binary64.float) sampleRate =? sampleRate / 80)%Z
  && forallb (fun lag : Z =>
                leb (ofZ 80 : Binary64.float)
                    (div (ofZ sampleRate) (ofZ lag)))
             (upto (minLag (T := Binary64.float) sampleRate)
                   (maxLag (T := Binary64.float) sampleRate)).

(** A value that is not NaN and carries the sign [s]. *)
Definition hasSign (s : bool) (x : Binary64.float) : Prop :=
  match x with
  | S754_zero s' | S754_infinity s' | S754_finite s' _ _ => s' = s
  | S754_nan => False
  end.

(** Zero of either sign, or a positive value; never NaN. *)
Definition nonNegative (x : Binary64.float) : Prop :=
  match x with
  | S754_zero _ => True
  | S754_infinity s | S754_finite s _ _ => s = false
  | S754_nan => False
  end.






(** *** In exact arithmetic *)

Local Open Scope R_scope.


(** The population standard deviation in the words of the
    specification: the root of the mean squared distance to the mean. *)
Definition sumOf (xs : list R) : R := fold_right Rplus 0 xs.

Definition meanOf (xs : list R) : R := sumOf xs / INR (length xs).

Definition standardDeviation (xs : list R) : R :=
  R_sqrt.sqrt
    (sumOf (map (fun x => (x - meanOf xs) * (x - meanOf xs)) xs)
     / INR (length xs)).




(** The MIDI number of [hzToNote], as an integer. *)
Definition midiZ (hz : R) : Z :=
  (69 + Int_part (12 * (ln (hz / 440) / ln 2) + / 2))%Z.

End Vocabulary.
Import Vocabulary.

(** ** The challenge link and the celebration *)

Module Challenge.
Import Session.

Section Carrier.

Context {T : Type} `{Number T}.

(** [Number(scoreRaw)], the browser's conversion of the text of the
    [score] parameter. *)
Variable toNumber : string -> T.

(** [Math.max(0, Math.min(100, Math.round(score)))]. *)
Definition clampScore (score : T) : T :=
  max (ofZ 0) (min (ofZ 100) (round score)).

(** [readChallengeFromUrl], given what [searchParams.get] returned for
    [name] and for [score] ([None] for [null]): the values stored in
    [challengeName] and [challengeScore], or [None] when the two fields
    are left as they are. *)
Definition readChallengeFromUrl (name scoreRaw : option string)
  : option (string * T) :=
  let score :=
    match scoreRaw with
    | Some (String _ _ as raw) => Some (toNumber raw)
    | _ => None
    end in
  match name, score with
  | Some (String _ _ as n), Some sc =>
      if isFinite sc then Some (String.substring 0 18 n, clampScore sc)
      else None
  | _, _ => None
  end.

(** The constructor's call, on the component's state. *)
Definition openLink (name scoreRaw : option string) (s : App T) : App T :=
  match readChallengeFromUrl name scoreRaw with
  | Some (_, sc) =>
      {| stage := stage s; playerName := playerName s;
         challengeScore := Some sc;
         energy := energy s; pitchHz := pitchHz s; levelBar := levelBar s;
         secondsLeft := secondsLeft s; lastRound := lastRound s;
         leaderboard := leaderboard s; personalBest := personalBest s;
         audioCtx := audioCtx s; analyser := analyser s;
         timeData := timeData s;
         rafId := rafId s; roundTimerId := roundTimerId s;
         energySamples := energySamples s;
         pitchSamples := pitchSamples s |}
  | None => s
  end.

(** [a === b] on numbers: equal values, [+0] and [-0] alike, never NaN. *)
Definition strictEq (a b : T) : bool := leb a b && leb b a.

(** The test guarding [fireConfetti] at the end of [finishRound]:
    [this.personalBest && entry.ts === this.personalBest.ts]. *)
Definition firesConfetti (now1 now2 : T) (s : App T) : bool :=
  match personalBest (finishRound now1 now2 s) with
  | Some best => strictEq now2 (ts best)
  | None => false
  end.

End Carrier.

End Challenge.

(** ** Rounds as the browser drives them *)

Module Rounds.
Import Session.

Section Carrier.

Context {T : Type} `{Number T}.

(** One second of a round: the frames drawn during it, then the timer's
    tick with its two clock readings. *)
Definition Second : Type := (list (list T) * (T * T))%type.

Definition second (b : Second) : list Event :=
  map Frame (fst b) ++ [Tick (fst (snd b)) (snd (snd b))].

Definition seconds (bs : list Second) : list Event := flat_map second bs.

(** All the frames of some seconds, in order. *)
Definition framesOf (bs : list Second) : list (list T) := flat_map fst bs.

(** The microphone is enabled. *)
Definition micOn (s : App T) : Prop :=
  analyser s = true /\ timeData s = true.

(** The results on file are those of [s]. *)
Definition sameFile (s s' : App T) : Prop :=
  playerName s' = playerName s /\ challengeScore s' = challengeScore s
  /\ lastRound s' = lastRound s /\ leaderboard s' = leaderboard s
  /\ personalBest s' = personalBest s.

(** A round is running with [n] seconds to go, having recorded the
    energies [es] and the pitches [ps]. *)
Definition singingWith (n : Z) (es ps : list T) (s : App T) : Prop :=
  stage s = singing /\ roundTimerId s = true /\ secondsLeft s = n
  /\ energySamples s = es /\ pitchSamples s = ps.

(** The entry [finishRound] files for the player of [s]. *)
Definition entryFor (s : App T) (sc : ScoreBreakdown (T := T)) (now : T)
  : ScoreEntry T :=
  {| name := entryName (playerName s);
     score := Engine.score sc;
     ts := now;
     mode := match challengeScore s with
             | Some _ => challenge
             | None => local
             end |}.

(** What the round bookkeeping keeps true: the clock stays within
    0..10 and is at least 1 while the interval is armed; a round being
    sung has its interval armed and the microphone enabled; results on
    screen come with a summary; no frame adds more pitches than
    energies, and every recorded pitch is truthy. *)
Definition wellKept (s : App T) : Prop :=
  (0 <= secondsLeft s <= 10)%Z
  /\ (roundTimerId s = true -> (1 <= secondsLeft s)%Z)
  /\ (stage s = singing ->
      roundTimerId s = true /\ analyser s = true /\ timeData s = true)
  /\ (stage s = results -> lastRound s <> None)
  /\ (length (pitchSamples s) <= length (energySamples s))%nat
  /\ Forall (fun p => truthy p = true) (pitchSamples s).


End Carrier.


End Rounds.

(** ** Further vocabulary *)

Module Notions.

(** The correlation [estimatePitchHz] computes for the lag [lag], the
    mean of the frame removed. *)
Definition corrAt {T} `{Number T} (buf : list T) (lag : Z) : T :=
  correlation buf (div (sum buf) (len buf)) (Z.to_nat lag).

End Notions.

(** ** Further sample inputs *)

Module Sessions.
Import Binary64 Session.

(** A first round of ten seconds whose only frame holds a NaN sample. *)
Definition spoiltRound : App float :=
  run initial
      ([EnableMic 44100; StartRound; Frame Samples.nanFrame]
       ++ repeat (Tick (ofZ 1) (ofZ 2)) 10).

(** The entry that round files. *)
Definition spoiltEntry : ScoreEntry float :=
  {| name := "Player"; score := nan; ts := ofZ 2; mode := local |}.

(** A later round of ten seconds with one clipping frame. *)
Definition loudRound : list Event :=
  [StartRound; Frame Samples.clippedFrame]
  ++ repeat (Tick (ofZ 3) (ofZ 4)) 10.

End Sessions.

(** ** Names *)

Module Names.

(** A text made of whitespace only. *)
Fixpoint blank (s : string) : bool :=
  match s with
  | EmptyString => true
  | String c r => Session.isSpace c && blank r
  end.

(** A text that does not begin with whitespace. *)
Definition startsClean (s : string) : Prop :=
  match s with
  | EmptyString => True
  | String c _ => Session.isSpace c = false
  end.

End Names.

(** * Properties *)

Unset Implicit Arguments.

(** ** Binary64: how NaN and signs travel *)

Module Binary64Facts.
Import Binary64.

(** The decimal literals of the component are the doubles JavaScript
    reads them as (mantissa and exponent of [0.015], [0.35], ...). *)
Lemma literals_are_doubles :
  map (fun pq => lit (fst pq) (snd pq) : float)
      [(15, 1000); (35, 100); (2, 10); (18, 100); (75, 100); (25, 100);
       (45, 100); (20, 100); (85, 100); (15, 100)]%Z
  = [S754_finite false 8646911284551352 (-59);
     S754_finite false 6305039478318694 (-54);
     S754_finite false 7205759403792794 (-55);
     S754_finite false 6485183463413514 (-55);
     S754_finite false 6755399441055744 (-53);
     S754_finite false 4503599627370496 (-54);
     S754_finite false 8106479329266893 (-54);
     S754_finite false 7205759403792794 (-55);
     S754_finite false 7656119366529843 (-53);
     S754_finite false 5404319552844595 (-55)].
Proof. vm_compute. reflexivity. Qed.

(** [pow2_12th] is the double nearest to the twelfth root of two: the
    root lies strictly between the midpoints to its two neighbours. *)
Lemma pow2_12th_nearest :
  ((2 * 4771397596969315 - 1) ^ 12 < 2 * 2 ^ (53 * 12)
   < (2 * 4771397596969315 + 1) ^ 12)%Z.
Proof. split; vm_compute; reflexivity. Qed.

(** [Math.round] on binary64: halves go up, and a zero keeps the sign. *)
Lemma round_examples :
  map (fun pq => round (lit (fst pq) (snd pq) : float))
      [(5, 10); (-5, 10); (25, 10); (-25, 10); (-26, 10); (1625, 100);
       (49, 100); (-2, 10)]%Z
  = [ofZ 1; S754_zero true; ofZ 3; ofZ (-2); ofZ (-3); ofZ 16;
     S754_zero false; S754_zero true].
Proof. vm_compute. reflexivity. Qed.

Lemma SFmul_comm (x y : float) :
  SFmul prec emax x y = SFmul prec emax y x.
Proof.
  destruct x as [sx|sx| |sx mx ex], y as [sy|sy| |sy my ey]; simpl;
    try reflexivity; try (rewrite (xorb_comm sx sy); reflexivity).
  now rewrite (xorb_comm sx sy), (Pos.mul_comm mx my), (Z.add_comm ex ey).
Qed.

Lemma add_nan_r (x : float) : SFadd prec emax x nan = nan.
Proof. now destruct x. Qed.


Lemma ltb_nan_r (x : float) : SFltb x nan = false.
Proof. now destruct x. Qed.

(** Once an accumulator is NaN it stays NaN. *)
Lemma fold_add_nan {A} (g : A -> float) (xs : list A) :
  fold_left (fun acc v => SFadd prec emax acc (g v)) xs nan = nan.
Proof. induction xs as [|x xs IH]; simpl; auto. Qed.

Lemma fold_add_In_nan {A} (g : A -> float) (xs : list A) (acc : float) :
  (exists v, In v xs /\ g v = nan) ->
  fold_left (fun acc v => SFadd prec emax acc (g v)) xs acc = nan.
Proof.
  revert acc; induction xs as [|x xs IH]; intros acc [v [Hin Hv]].
  - destruct Hin.
  - simpl. destruct Hin as [->|Hin].
    + rewrite Hv, add_nan_r. apply fold_add_nan.
    + apply IH. now exists v.
Qed.

Lemma sumSquares_nan (buf : list float) :
  In nan buf -> sumSquares buf = nan.
Proof.
  intros Hin. unfold sumSquares.
  apply (fold_add_In_nan (fun v => mul v v)). now exists nan.
Qed.

Lemma sum_nan (buf : list float) : In nan buf -> sum buf = nan.
Proof.
  intros Hin. unfold sum.
  apply (fold_add_In_nan (fun v => v)). now exists nan.
Qed.



End Binary64Facts.

(** ** Binary64: the energy of a frame free of NaN *)

Module EnergyFacts.
Import Binary64 Binary64Facts.

Lemma hasSign_nonNegative (x : float) : hasSign false x -> nonNegative x.
Proof. destruct x; simpl; auto. Qed.

Lemma shr_1_nonneg (mrs : shr_record) :
  (0 <= shr_m mrs)%Z -> (0 <= shr_m (shr_1 mrs))%Z.
Proof.
  destruct mrs as [m r s]. simpl.
  destruct m as [|p|p]; [intros; simpl; lia| |lia].
  destruct p; simpl; lia.
Qed.

Lemma iter_shr_1_nonneg (n : positive) (mrs : shr_record) :
  (0 <= shr_m mrs)%Z -> (0 <= shr_m (iter_pos shr_1 n mrs))%Z.
Proof.
  revert mrs; induction n as [n IH|n IH|]; intros mrs Hm; simpl.
  - apply IH, IH. now apply shr_1_nonneg.
  - now apply IH, IH.
  - now apply shr_1_nonneg.
Qed.

Lemma shr_fexp_nonneg (m e : Z) (l : location) :
  (0 <= m)%Z -> (0 <= shr_m (fst (shr_fexp prec emax m e l)))%Z.
Proof.
  intros Hm. unfold shr_fexp, shr.
  assert (H0 : (0 <= shr_m (shr_record_of_loc m l))%Z).
  { destruct l as [|[| |]]; simpl; exact Hm. }
  destruct (fexp prec emax (Zdigits2 m + e) - e)%Z; simpl; auto.
  now apply iter_shr_1_nonneg.
Qed.

Lemma round_nearest_even_nonneg (m : Z) (l : location) :
  (0 <= m)%Z -> (0 <= round_nearest_even m l)%Z.
Proof.
  intros Hm. destruct l as [|[| |]]; simpl; try lia.
  destruct (Z.even m); lia.
Qed.

(** Rounding a non-negative mantissa never produces NaN and keeps the
    sign it is given. *)
Lemma binary_round_aux_sign (s : bool) (m e : Z) (l : location) :
  (0 <= m)%Z -> hasSign s (binary_round_aux prec emax s m e l).
Proof.
  intros Hm. unfold binary_round_aux.
  pose proof (shr_fexp_nonneg m e l Hm) as H1.
  destruct (shr_fexp prec emax m e l) as [mrs' e'].
  cbn [fst] in H1.
  pose proof (shr_fexp_nonneg _ e' loc_Exact
                (round_nearest_even_nonneg _ (loc_of_shr_record mrs') H1))
    as H2.
  destruct (shr_fexp prec emax _ e' loc_Exact) as [mrs'' e''].
  cbn [fst] in H2.
  destruct (shr_m mrs'') as [|p|p]; simpl; [reflexivity| |lia].
  destruct (e'' <=? _)%Z; reflexivity.
Qed.

Lemma binary_round_sign (s : bool) (m : positive) (e : Z) :
  hasSign s (binary_round prec emax s m e).
Proof.
  unfold binary_round.
  destruct (shl_align m e _) as [mz ez].
  apply binary_round_aux_sign. lia.
Qed.

Lemma mul_self_nonNegative (v : float) :
  v <> nan -> nonNegative (SFmul prec emax v v).
Proof.
  intros Hv. destruct v as [s|s| |s m e]; simpl; auto.
  - now destruct s.
  - apply hasSign_nonNegative.
    replace (xorb s s) with false by now destruct s.
    apply binary_round_aux_sign. lia.
Qed.

Lemma add_nonNegative (x y : float) :
  nonNegative x -> nonNegative y -> nonNegative (SFadd prec emax x y).
Proof.
  destruct x as [sx|sx| |sx mx ex], y as [sy|sy| |sy my ey]; simpl;
    intros Hx Hy; try contradiction; subst; simpl; auto.
  - destruct sx, sy; exact I.
  - destruct (shl_align mx ex (Z.min ex ey)) as [ax ?].
    destruct (shl_align my ey (Z.min ex ey)) as [ay ?].
    simpl. apply hasSign_nonNegative, binary_round_sign.
Qed.

Lemma sumSquares_nonNegative (buf : list float) :
  ~ In nan buf -> nonNegative (sumSquares buf).
Proof.
  unfold sumSquares. intros Hbuf.
  assert (H0 : nonNegative (ofZ 0)) by exact I.
  revert H0. generalize (ofZ 0 : float).
  induction buf as [|v buf IH]; intros acc Hacc; [exact Hacc|].
  simpl. apply IH.
  - intros Hin. apply Hbuf. now right.
  - apply add_nonNegative; [exact Hacc|].
    apply mul_self_nonNegative. intros ->. apply Hbuf. now left.
Qed.

(** *** Integers below [2^53] convert to finite doubles *)

Lemma digits2_pos_bound (p : positive) (k : Z) :
  (Zpos p < 2 ^ k)%Z -> (0 <= k)%Z -> (Zpos (digits2_pos p) <= k)%Z.
Proof.
  revert k; induction p as [p IH|p IH|]; intros k Hp Hk; simpl.
  - assert (k <> 0)%Z by (intros ->; simpl in Hp; lia).
    replace k with (Z.succ (k - 1)) in Hp by lia.
    rewrite Z.pow_succ_r in Hp by lia.
    specialize (IH (k - 1)%Z ltac:(lia) ltac:(lia)). lia.
  - assert (k <> 0)%Z by (intros ->; simpl in Hp; lia).
    replace k with (Z.succ (k - 1)) in Hp by lia.
    rewrite Z.pow_succ_r in Hp by lia.
    specialize (IH (k - 1)%Z ltac:(lia) ltac:(lia)). lia.
  - assert (k <> 0)%Z by (intros ->; simpl in Hp; lia). lia.
Qed.

Lemma digits2_pos_shift (p k : positive) :
  digits2_pos (Pos.iter xO p k) = (digits2_pos p + k)%positive.
Proof.
  induction k as [|k IH] using Pos.peano_ind.
  - simpl. now rewrite Pos.add_1_r.
  - rewrite Pos.iter_succ. simpl. rewrite IH. now rewrite Pos.add_succ_r.
Qed.

(** A mantissa of 53 bits with an exponent in range is left as it is. *)
Lemma round_canonical (s : bool) (m : positive) (e : Z) :
  Zpos (digits2_pos m) = 53%Z -> (-1074 <= e <= 971)%Z ->
  binary_round_aux prec emax s (Zpos m) e loc_Exact = S754_finite s m e.
Proof.
  intros Hd He.
  assert (Hshift : (fexp prec emax (Zdigits2 (Zpos m) + e) - e = 0)%Z).
  { unfold fexp, emin, prec, emax. simpl Zdigits2. rewrite Hd. lia. }
  unfold binary_round_aux, shr_fexp.
  rewrite Hshift. cbn [shr shr_record_of_loc shr_m loc_of_shr_record
                         round_nearest_even].
  rewrite Hshift. cbn [shr shr_record_of_loc shr_m].
  destruct (Z.leb_spec e (emax - prec)) as [_|Hgt]; [reflexivity|].
  unfold emax, prec in Hgt. lia.
Qed.

Lemma of_Z_finite (p : positive) :
  (Zpos p < 2 ^ 53)%Z ->
  exists m e, of_Z (Zpos p) = S754_finite false m e.
Proof.
  intros Hp. pose proof (digits2_pos_bound p 53 Hp ltac:(lia)) as Hd.
  unfold of_Z, binary_normalize, binary_round.
  assert (Hf : fexp prec emax (Zpos (digits2_pos p) + 0)
               = (Zpos (digits2_pos p) - 53)%Z).
  { unfold fexp, emin, prec, emax. lia. }
  rewrite Hf. unfold shl_align.
  destruct (Zpos (digits2_pos p) - 53 - 0)%Z as [|k|k] eqn:Hk; try lia.
  - exists p, 0%Z. apply round_canonical; lia.
  - exists (Pos.iter xO p k), (Zpos (digits2_pos p) - 53)%Z.
    apply round_canonical; [|lia].
    rewrite digits2_pos_shift, Pos2Z.inj_add. lia.
Qed.

(** *** Quotient, root and boost keep the sign *)

Lemma div_eucl_nonneg (a : Z) (b : positive) :
  (0 <= a)%Z -> (0 <= fst (Z.div_eucl a (Zpos b)))%Z.
Proof.
  intros Ha. change (fst (Z.div_eucl a (Zpos b))) with (a / Zpos b)%Z.
  apply Z.div_pos; lia.
Qed.

Lemma div_nonNegative (x : float) (m : positive) (e : Z) :
  nonNegative x ->
  nonNegative (SFdiv prec emax x (S754_finite false m e)).
Proof.
  destruct x as [sx|sx| |sx mx ex]; simpl; intros Hx;
    try contradiction; subst; simpl; auto.
  unfold SFdiv_core_binary.
  set (m' := match _ with Z0 => _ | Zpos _ => _ | Zneg _ => _ end).
  assert (Hm' : (0 <= m')%Z).
  { unfold m'. destruct (_ - _ - _)%Z; try lia.
    apply Z.shiftl_nonneg. lia. }
  pose proof (div_eucl_nonneg m' m Hm') as Hq.
  destruct (Z.div_eucl m' (Zpos m)) as [q r]. cbn [fst] in Hq.
  apply hasSign_nonNegative, binary_round_aux_sign. exact Hq.
Qed.

Lemma sqrt_nonNegative (x : float) :
  nonNegative x -> nonNegative (SFsqrt prec emax x).
Proof.
  destruct x as [sx|sx| |sx mx ex]; simpl; intros Hx;
    try contradiction; subst; simpl; auto.
  unfold SFsqrt_core_binary.
  set (m' := match _ with Z0 => _ | Zpos _ => _ | Zneg _ => _ end).
  pose proof (Z.sqrtrem_sqrt m') as Hs.
  destruct (Z.sqrtrem m') as [q r]. cbn [fst] in Hs.
  apply hasSign_nonNegative, binary_round_aux_sign.
  rewrite Hs. apply Z.sqrt_nonneg.
Qed.

Lemma mul_nonNegative (x : float) (m : positive) (e : Z) :
  nonNegative x ->
  nonNegative (SFmul prec emax x (S754_finite false m e)).
Proof.
  destruct x as [sx|sx| |sx mx ex]; simpl; intros Hx;
    try contradiction; subst; simpl; auto.
  apply hasSign_nonNegative, binary_round_aux_sign. lia.
Qed.

(** *** [clamp01] away from NaN *)

Lemma ltb_leb (x y : float) : SFltb x y = true -> SFleb x y = true.
Proof. unfold SFltb, SFleb. now destruct (SFcompare x y) as [[| |]|]. Qed.

Lemma clamp01_unit (x : float) :
  x <> nan -> inUnitInterval (clamp01 x) = true.
Proof.
  intros Hx. unfold inUnitInterval, clamp01.
  change (ofZ 0 : float) with (S754_zero false).
  change (ofZ 1 : float) with (S754_finite false 4503599627370496 (-52)).
  set (one := S754_finite false 4503599627370496 (-52)).
  destruct x as [s|s| |s m e].
  - destruct s; reflexivity.
  - destruct s; reflexivity.
  - now elim Hx.
  - change (min one (S754_finite s m e))
      with (if SFltb (S754_finite s m e) one
            then S754_finite s m e else one).
    destruct (SFltb (S754_finite s m e) one) eqn:Hlt; [|reflexivity].
    destruct s; [reflexivity|].
    change (max (S754_zero false) (S754_finite false m e))
      with (S754_finite false m e).
    change (leb (S754_zero false) (S754_finite false m e)) with true.
    apply ltb_leb. exact Hlt.
Qed.

(** The energy of a non-empty frame free of NaN lies in [0, 1], whatever
    the amplitudes, infinite ones included. *)
Lemma frameEnergy_unit (buf : list float) :
  buf <> [] -> ~ In nan buf -> (Z.of_nat (length buf) < 2 ^ 53)%Z ->
  inUnitInterval (frameEnergy buf) = true.
Proof.
  intros Hne Hnan Hlen. unfold frameEnergy. apply clamp01_unit.
  assert (Hn : exists m e, len buf = S754_finite false m e).
  { unfold len. destruct buf as [|v buf]; [contradiction|].
    cbn [length] in *. rewrite Nat2Z.inj_succ in *.
    destruct (Z.succ (Z.of_nat (length buf))) as [|p|p] eqn:Hp; try lia.
    now apply of_Z_finite. }
  destruct Hn as (m & e & Hn).
  assert (H4 : nonNegative
                 (mul (rootMeanSquare buf) (ofZ 4))).
  { unfold rootMeanSquare. rewrite Hn.
    apply (mul_nonNegative _ 4503599627370496 (-50)).
    apply sqrt_nonNegative, div_nonNegative.
    now apply sumSquares_nonNegative. }
  intros Heq. rewrite Heq in H4. exact H4.
Qed.

End EnergyFacts.

(** ** Binary64: integers *)

Module IntegerFacts.
Import Binary64 Binary64Facts EnergyFacts.



















End IntegerFacts.

(** ** Scoring on binary64 *)

Module ScoreFacts.
Import Binary64 Binary64Facts Samples.

(** The mix of [computeScore] with the factors written first, for any
    carrier whose product commutes. *)
Lemma computeScore_mix {T} `{Number T}
    (mul_comm : forall x y : T, mul x y = mul y x)
    (energySamples pitchSamples : list T) :
  let e := energyScore energySamples in
  let s := computePitchStability pitchSamples in
  let v := computePitchVariety pitchSamples in
  computeScore energySamples pitchSamples =
    {| score :=
         round (mul (ofZ 100)
                    (clamp01 (add (add (mul (lit 45 100) e)
                                       (mul (lit 35 100) s))
                                  (mul (lit 20 100) v))));
       energy := round (mul (ofZ 100) e);
       stability := round (mul (ofZ 100) s);
       variety := round (mul (ofZ 100) v) |}.
Proof.
  intros e s v. unfold computeScore. fold e s v.
  now rewrite !(mul_comm (ofZ 100)), !(mul_comm (lit _ 100)).
Qed.

(** C1. For all sample sequences, on binary64 and on the reals alike,
    the final score is [round(100 * clamp01(0.45 * energy +
    0.35 * stability + 0.20 * variety))] of the unrounded sub-scores and
    the breakdown carries each sub-score times 100, rounded; ten frames
    of energy 0.6 and pitch 200 Hz score energy 60, stability 100,
    variety 0 and 62 overall. *)
Theorem computeScore_formula :
  (forall energySamples pitchSamples : list float,
      let e := energyScore energySamples in
      let s := computePitchStability pitchSamples in
      let v := computePitchVariety pitchSamples in
      computeScore energySamples pitchSamples =
        {| score :=
             round (mul (ofZ 100)
                        (clamp01 (add (add (mul (lit 45 100) e)
                                           (mul (lit 35 100) s))
                                      (mul (lit 20 100) v))));
           energy := round (mul (ofZ 100) e);
           stability := round (mul (ofZ 100) s);
           variety := round (mul (ofZ 100) v) |})
  /\ (forall energySamples pitchSamples : list R,
      let e := energyScore energySamples in
      let s := computePitchStability pitchSamples in
      let v := computePitchVariety pitchSamples in
      computeScore energySamples pitchSamples =
        {| score :=
             round (mul (ofZ 100)
                        (clamp01 (add (add (mul (lit 45 100) e)
                                           (mul (lit 35 100) s))
                                      (mul (lit 20 100) v))));
           energy := round (mul (ofZ 100) e);
           stability := round (mul (ofZ 100) s);
           variety := round (mul (ofZ 100) v) |})
  /\ computeScore steadyEnergy steadyPitch =
       {| score := ofZ 62; energy := ofZ 60;
          stability := ofZ 100; variety := ofZ 0 |}.
Proof.
  split; [|split].
  - intros. apply computeScore_mix. exact SFmul_comm.
  - intros. apply computeScore_mix. exact Rmult_comm.
  - vm_compute. reflexivity.
Qed.

(** C6. Scoring two empty sequences returns energy 0, stability 35,
    variety 20 and the final score 16, each within [0, 100]; no
    quotient by a zero length is formed ([avgEnergy] and [peakEnergy]
    answer 0 on the empty sequence). *)
Theorem computeScore_empty :
  computeScore (@nil float) [] =
    {| score := ofZ 16; energy := ofZ 0;
       stability := ofZ 35; variety := ofZ 20 |}
  /\ avgEnergy (@nil float) = ofZ 0
  /\ peakEnergy (@nil float) = ofZ 0
  /\ let b := computeScore (@nil float) [] in
     percent (score b) && percent (energy b)
     && percent (stability b) && percent (variety b) = true.
Proof. repeat split; vm_compute; reflexivity. Qed.

End ScoreFacts.

(** ** Degenerate frames *)

Module FrameFacts.
Import Binary64 Binary64Facts Samples.


Lemma degenerate_rms (buf : list float) :
  buf = [] \/ In nan buf -> rootMeanSquare buf = nan.
Proof.
  intros [-> | Hin]; [reflexivity|].
  unfold rootMeanSquare. now rewrite (sumSquares_nan _ Hin).
Qed.





(** The energy of a degenerate frame is NaN at every sample rate. *)
Lemma frameEnergy_degenerate (buf : list float) :
  buf = [] \/ In nan buf -> frameEnergy buf = nan.
Proof.
  intros Hdeg. unfold frameEnergy. now rewrite (degenerate_rms _ Hdeg).
Qed.

(** C3. The energy of a frame with a NaN sample, and of the empty
    frame, is NaN, which is neither at least 0 nor at most 1.  On every
    other frame (non-empty, free of NaN, of a length below [2^53]) the
    energy lies in [0, 1], clipping or infinite amplitudes included; a
    frame clipping at both rails reaches exactly 1. *)
Theorem frameEnergy_range :
  (forall buf : list float,
      buf = [] \/ In nan buf ->
      frameEnergy buf = nan /\ inUnitInterval (frameEnergy buf) = false)
  /\ (forall buf : list float,
      buf <> [] -> ~ In nan buf -> (Z.of_nat (length buf) < 2 ^ 53)%Z ->
      inUnitInterval (frameEnergy buf) = true)
  /\ frameEnergy nanFrame = nan
  /\ leb (ofZ 0) (frameEnergy nanFrame) = false
  /\ leb (frameEnergy nanFrame) (ofZ 1) = false
  /\ frameEnergy clippedFrame = ofZ 1.
Proof.
  split; [|split].
  - intros buf Hdeg. rewrite (frameEnergy_degenerate buf Hdeg).
    split; reflexivity.
  - exact EnergyFacts.frameEnergy_unit.
  - repeat split; vm_compute; reflexivity.
Qed.

Lemma frameEnergy_range_witness :
  inUnitInterval (frameEnergy clippedFrame) = true
  /\ frameEnergy nanFrame = nan.
Proof.
  split.
  - apply (proj1 (proj2 frameEnergy_range)).
    + discriminate.
    + simpl. intros [H | [H | [H | [H | []]]]]; vm_compute in H; discriminate H.
    + vm_compute. reflexivity.
  - apply (proj1 frameEnergy_range). right. simpl. now left.
Defined.

End FrameFacts.


(** ** The round lifecycle *)

Module SessionFacts.
Import Session Samples.

Section Generic.

Context {T : Type} `{Number T}.




(** Frames observed while singing are appended, one energy each. *)
Lemma frames_accumulate (frames : list (list T)) (s : App T) :
  analyser s = true -> timeData s = true -> stage s = singing ->
  let s' := run s (map Frame frames) in
  energySamples s' = energySamples s ++ map frameEnergy frames
  /\ pitchSamples s' =
       pitchSamples s ++ flat_map (voicedPitch (rateOf s)) frames.
Proof.
  revert s; induction frames as [|buf frames IH]; intros s Ha Ht Hst;
    cbv zeta.
  - simpl. now rewrite !app_nil_r.
  - simpl map.
    assert (Hl : analyser (loop buf s) = true /\ timeData (loop buf s) = true
                 /\ stage (loop buf s) = singing
                 /\ rateOf (loop buf s) = rateOf s
                 /\ energySamples (loop buf s)
                    = energySamples s ++ [frameEnergy buf]
                 /\ pitchSamples (loop buf s)
                    = pitchSamples s ++ voicedPitch (rateOf s) buf).
    { unfold loop, rateOf, voicedPitch. rewrite Ha, Ht, Hst. simpl.
      repeat split; auto.
      destruct (estimatePitchHz buf _) as [p|];
        [destruct (truthy p)|]; simpl; now rewrite ?app_nil_r. }
    destruct Hl as (Ha' & Ht' & Hst' & Hr & He & Hp).
    destruct (IH (loop buf s) Ha' Ht' Hst') as [IHe IHp].
    change (run s (Frame buf :: map Frame frames))
      with (run (loop buf s) (map Frame frames)).
    cbv zeta in IHe, IHp.
    rewrite IHe, IHp, He, Hp, Hr, <- !app_assoc. auto.
Qed.

End Generic.




End SessionFacts.

(** ** The leaderboard *)

Module LeaderboardFacts.
Import Session Binary64 IntegerFacts.

(** Insertion sort, for any comparator that agrees with an order. *)
Section Sorting.

Context {T : Type} `{Number T} {E : Type}.
Variable cmp : E -> E -> T.
Variable before : E -> E -> Prop.
Variable valid : E -> Prop.

Hypothesis positive_after :
  forall x y, valid x -> valid y ->
    ltb (ofZ 0) (cmp x y) = true -> before y x.
Hypothesis otherwise_before :
  forall x y, valid x -> valid y ->
    ltb (ofZ 0) (cmp x y) = false -> before x y.
Hypothesis before_trans :
  forall x y z, before x y -> before y z -> before x z.

Lemma insertBy_perm (x : E) (l : list E) :
  Permutation (insertBy cmp x l) (x :: l).
Proof.
  induction l as [|y l IH]; cbn [insertBy]; [reflexivity|].
  destruct (ltb (ofZ 0) (cmp x y)); [|reflexivity].
  rewrite IH. apply perm_swap.
Qed.

Lemma sortBy_perm (l : list E) : Permutation (sortBy cmp l) l.
Proof.
  induction l as [|x l IH]; [reflexivity|].
  unfold sortBy in IH |- *. cbn [fold_right].
  rewrite insertBy_perm. now constructor.
Qed.



End Sorting.


(** *** On binary64, for integral entries *)




(** On binary64 the comparator reads the rounded scores exactly: for all
    scores from 0 to 100 the difference is positive when the second is
    larger and truthy when the two differ. *)
Lemma score_differences_exact :
  forallb
    (fun a : Z =>
       forallb
         (fun b : Z =>
            Bool.eqb (ltb (ofZ 0 : float) (sub (ofZ b) (ofZ a)))
                     (a <? b)%Z
            && Bool.eqb (truthy (sub (ofZ b) (ofZ a) : float))
                        (negb (a =? b)%Z))
         (upto 0 100))
    (upto 0 100)
  = true.
Proof. vm_compute. reflexivity. Qed.

(** A new 70 joins an unordered board ahead of the older 70, and a
    board of thirty entries is cut to twenty-five. *)
Lemma updateLeaderboard_runs :
  updateLeaderboard (Samples.entryOf 70 30) Samples.looseBoard
  = [Samples.entryOf 70 30; Samples.entryOf 70 20;
     Samples.entryOf 62 15; Samples.entryOf 50 10]
  /\ map (fun e => toZ (score e))
         (updateLeaderboard (Samples.entryOf 99 0)
            (map (fun k => Samples.entryOf (Z.of_nat k) 0) (seq 0 30)))
     = map (fun k => Some (Z.of_nat k))
           (99 :: rev (seq 6 24))%nat.
Proof. split; vm_compute; reflexivity. Qed.

(** *** In exact arithmetic *)

Local Open Scope R_scope.

Ltac decide_reals :=
  repeat match goal with
         | H : context [Rlt_dec ?a ?b] |- _ => destruct (Rlt_dec a b)
         | |- context [Rlt_dec ?a ?b] => destruct (Rlt_dec a b)
         | H : context [Rle_dec ?a ?b] |- _ => destruct (Rle_dec a b)
         | |- context [Rle_dec ?a ?b] => destruct (Rle_dec a b)
         end.







End LeaderboardFacts.

(** ** The pitch estimator *)

Module PitchFacts.

Section Generic.

Context {T : Type} `{Number T}.

Lemma In_upto (lo hi k : Z) : In k (upto lo hi) -> (lo <= k <= hi)%Z.
Proof.
  unfold upto. rewrite in_map_iff. intros (i & <- & Hi).
  apply in_seq in Hi. lia.
Qed.

(** The scan ends on its starting lag or on one of the lags it tried. *)
Lemma scan_picks_a_lag (buf : list T) (mean : T) (ls : list Z) (best : Z * T) :
  let r := fold_left (scanStep buf mean) ls best in
  fst r = fst best \/ In (fst r) ls.
Proof.
  revert best; induction ls as [|l ls IH]; intros best; cbn [fold_left].
  - now left.
  - destruct (IH (scanStep buf mean best l)) as [Heq | Hin].
    + cbv zeta. rewrite Heq. unfold scanStep.
      destruct (ltb (snd best) _); cbn [fst]; [right; now left | now left].
    + right. now right.
Qed.

(** A pitch, when there is one, is the sample rate over a positive lag
    of the search range. *)
Lemma estimatePitchHz_lag (buf : list T) (sampleRate : Z) (hz : T) :
  estimatePitchHz buf sampleRate = Some hz ->
  exists lag : Z,
    (minLag sampleRate <= lag <= maxLag sampleRate)%Z /\ (0 < lag)%Z
    /\ hz = div (ofZ sampleRate) (ofZ lag).
Proof.
  unfold estimatePitchHz.
  destruct (ltb (rootMeanSquare buf) _); [discriminate|].
  set (mean := div (sum buf) (len buf)).
  set (ls := upto (minLag sampleRate) (maxLag sampleRate)).
  destruct (scan_picks_a_lag buf mean ls ((-1)%Z, ofZ 0)) as [Heq | Hin];
    fold (scanLags buf mean ls) in *.
  - rewrite Heq. discriminate.
  - destruct (Z.leb_spec (fst (scanLags buf mean ls)) 0); [discriminate|].
    destruct (negb (isFinite _)); [discriminate|].
    intros [= <-]. exists (fst (scanLags buf mean ls)).
    split; [now apply In_upto|]. split; [assumption|reflexivity].
Qed.

End Generic.

Local Open Scope R_scope.

(** On the reals [Math.floor(a / b)] of two integers is their integer
    quotient. *)
Lemma floor_quotient (a b : Z) :
  (0 < b)%Z -> Int_part (IZR a / IZR b) = (a / b)%Z.
Proof.
  intros Hb. symmetry. apply Int_part_spec.
  assert (Hb' : 0 < IZR b) by now apply IZR_lt.
  pose proof (Z.div_mod a b ltac:(lia)) as Hdm.
  pose proof (Z.mod_pos_bound a b Hb) as [Hlo Hhi].
  assert (Ha : IZR a = IZR b * IZR (a / b) + IZR (a mod b)).
  { rewrite <- mult_IZR, <- plus_IZR. now f_equal. }
  apply IZR_le in Hlo. apply IZR_lt in Hhi.
  rewrite Ha.
  replace ((IZR b * IZR (a / b) + IZR (a mod b)) / IZR b)
    with (IZR (a / b) + IZR (a mod b) / IZR b) by (field; lra).
  assert (0 <= IZR (a mod b) / IZR b < 1).
  { split.
    - apply Rmult_le_pos; [lra|]. left. now apply Rinv_0_lt_compat.
    - apply (Rmult_lt_reg_r (IZR b)); [lra|].
      unfold Rdiv. rewrite Rmult_assoc, Rinv_l; lra. }
  lra.
Qed.

Lemma minLag_exact (sampleRate : Z) :
  minLag (T := R) sampleRate = (sampleRate / 800)%Z.
Proof. apply floor_quotient. lia. Qed.

Lemma maxLag_exact (sampleRate : Z) :
  maxLag (T := R) sampleRate = (sampleRate / 80)%Z.
Proof. apply floor_quotient. lia. Qed.

(** In exact arithmetic an estimate is the sample rate over a lag between
    the two integer quotients, and at least 80 Hz. *)
Lemma estimatePitchHz_exact (buf : list R) (sampleRate : Z) (hz : R) :
  estimatePitchHz buf sampleRate = Some hz ->
  exists lag : Z,
    (sampleRate / 800 <= lag <= sampleRate / 80)%Z
    /\ hz = IZR sampleRate / IZR lag /\ 80 <= hz.
Proof.
  intros Hsome.
  destruct (estimatePitchHz_lag buf sampleRate hz Hsome)
    as (lag & [Hlo Hhi] & Hpos & ->).
  rewrite minLag_exact in Hlo. rewrite maxLag_exact in Hhi.
  exists lag. split; [lia|]. split; [reflexivity|].
  change (80 <= IZR sampleRate / IZR lag).
  assert (Hl : 0 < IZR lag) by now apply IZR_lt.
  assert (H80 : (80 * lag <= sampleRate)%Z).
  { pose proof (Z.mul_div_le sampleRate 80 ltac:(lia)). nia. }
  apply IZR_le in H80. rewrite mult_IZR in H80.
  apply (Rmult_le_reg_r (IZR lag)); [exact Hl|].
  unfold Rdiv. rewrite Rmult_assoc, Rinv_l; lra.
Qed.

(** C10. For every buffer and every sample rate of at least 800 Hz, a
    non-null estimate is the sample rate over a lag between
    [floor(sampleRate / 800)] and [floor(sampleRate / 80)] (on any
    carrier); in exact arithmetic these bounds are the integer quotients
    and the estimate is at least 80 Hz.  It can exceed 800 Hz: on binary64,
    at 44100 Hz, two impulses 55 samples apart are estimated at
    [44100 / 55], about 801.8 Hz, which the [80, 800] filter of the
    scoring then drops.  On binary64, at each standard sample rate from
    8000 to 192000 Hz, the rounded bounds are the integer quotients and
    every lag of the range gives at least 80 Hz. *)
Theorem estimatePitchHz_range :
  (forall (T : Type) (N : Number T) (buf : list T) (sampleRate : Z) (hz : T),
      (800 <= sampleRate)%Z ->
      estimatePitchHz buf sampleRate = Some hz ->
      exists lag : Z,
        (minLag sampleRate <= lag <= maxLag sampleRate)%Z /\ (0 < lag)%Z
        /\ hz = div (ofZ sampleRate) (ofZ lag))
  /\ (forall (buf : list R) (sampleRate : Z) (hz : R),
      (800 <= sampleRate)%Z ->
      estimatePitchHz buf sampleRate = Some hz ->
      exists lag : Z,
        (sampleRate / 800 <= lag <= sampleRate / 80)%Z
        /\ hz = IZR sampleRate / IZR lag /\ 80 <= hz)
  /\ (estimatePitchHz Samples.impulsePair 44100
        = Some (div (ofZ 44100) (ofZ 55))
      /\ minLag (T := Binary64.float) 44100 = 55%Z
      /\ ltb (ofZ 800) (div (ofZ 44100) (ofZ 55) : Binary64.float) = true
      /\ ltb (div (ofZ 44100) (ofZ 55) : Binary64.float) (ofZ 802) = true
      /\ keptByScoring (div (ofZ 44100) (ofZ 55)) = [])
  /\ forallb rangeHolds Samples.standardRates = true.
Proof.
  split; [|split; [|split]].
  - intros T N buf sampleRate hz _. apply estimatePitchHz_lag.
  - intros buf sampleRate hz _. apply estimatePitchHz_exact.
  - repeat split; vm_compute; reflexivity.
  - vm_compute. reflexivity.
Qed.

Lemma estimatePitchHz_range_witness :
  exists lag : Z,
    (minLag (T := Binary64.float) 44100 <= lag
     <= maxLag (T := Binary64.float) 44100)%Z
    /\ (0 < lag)%Z
    /\ div (ofZ 44100) (ofZ 55) = div (ofZ 44100) (ofZ lag) :> Binary64.float.
Proof.
  apply (proj1 estimatePitchHz_range Binary64.float _
           Samples.impulsePair 44100%Z).
  - vm_compute. discriminate.
  - vm_compute. reflexivity.
Defined.

End PitchFacts.

(** ** The scoring curves *)

Module CurveFacts.

Section Generic.

Context {T : Type} `{Number T}.

Lemma cleaned_length (pitches : list T) :
  (length (cleaned pitches) <= length pitches)%nat.
Proof. apply filter_length_le. Qed.

Lemma stability_enough (pitches : list T) :
  (8 <= length (cleaned pitches))%nat ->
  computePitchStability pitches
  = stabilityOfStd (populationStd (cleaned pitches)).
Proof.
  intros Hc. pose proof (cleaned_length pitches) as Hl.
  unfold computePitchStability.
  destruct (Nat.ltb_spec (length pitches) 8); [lia|].
  destruct (Nat.ltb_spec (length (cleaned pitches)) 8); [lia|reflexivity].
Qed.


Lemma variety_enough (pitches : list T) :
  (8 <= length (cleaned pitches))%nat ->
  computePitchVariety pitches = varietyOfRate (moveRate (cleaned pitches)).
Proof.
  intros Hc. pose proof (cleaned_length pitches) as Hl.
  unfold computePitchVariety.
  destruct (Nat.ltb_spec (length pitches) 8); [lia|].
  destruct (Nat.ltb_spec (length (cleaned pitches)) 8); [lia|reflexivity].
Qed.


End Generic.

Local Open Scope R_scope.

Ltac plain t :=
  lazymatch t with
  | context [Rle_dec _ _] => fail
  | context [Rcase_abs _] => fail
  | _ => idtac
  end.

(** Split on the tests of [Rmax], [Rmin] and [Rabs], innermost first. *)
Ltac real_cases :=
  unfold Rmax, Rmin, Rabs;
  repeat match goal with
         | |- context [Rle_dec ?a ?b] =>
             plain a; plain b; destruct (Rle_dec a b)
         | |- context [Rcase_abs ?a] => plain a; destruct (Rcase_abs a)
         end;
  try (intros; lra).

(** The stability curve, piece by piece. *)
Lemma stabilityOfStd_pieces (std : R) :
  (std <= 15 -> stabilityOfStd std = 1)
  /\ (15 <= std <= 100 -> stabilityOfStd std = 1 - (std - 15) / 85)
  /\ (100 <= std -> stabilityOfStd std = 0).
Proof.
  unfold stabilityOfStd, clamp01; simpl. repeat split; intros; real_cases.
Qed.


(** Each reading of a pitch sequence in the vocal band is kept. *)
Lemma cleaned_in_band (pitches : list R) :
  Forall (fun p => 80 <= p <= 800) pitches -> cleaned pitches = pitches.
Proof.
  induction 1 as [|p ps [Hlo Hhi] _ IH]; [reflexivity|].
  unfold cleaned in *. cbn [filter]. rewrite IH.
  unfold inVocalBand; simpl; unfold Ideal.Rleb.
  destruct (Rle_dec 80 p); [|lra]. destruct (Rle_dec p 800); [|lra].
  reflexivity.
Qed.

Lemma fold_add_sumOf {A} (g : A -> R) (xs : list A) (acc : R) :
  fold_left (fun a x => a + g x) xs acc = acc + sumOf (map g xs).
Proof.
  revert acc; induction xs as [|x xs IH]; intros acc; simpl.
  - lra.
  - rewrite IH. unfold sumOf. simpl. lra.
Qed.

(** [populationStd] is the standard deviation of the specification. *)
Lemma populationStd_standardDeviation (xs : list R) :
  populationStd xs = standardDeviation xs.
Proof.
  assert (Hsum : sum xs = sumOf xs).
  { unfold sum. change (fold_left add xs (ofZ 0))
      with (fold_left (fun a x => a + (fun y => y) x) xs 0).
    rewrite fold_add_sumOf, map_id. lra. }
  assert (Hlen : len xs = INR (length xs)).
  { unfold len. symmetry. apply INR_IZR_INZ. }
  unfold populationStd, standardDeviation, meanOf.
  rewrite Hsum, Hlen.
  change (fold_left
            (fun acc p =>
               add acc (mul (sub p (div (sumOf xs) (INR (length xs))))
                            (sub p (div (sumOf xs) (INR (length xs))))))
            xs (ofZ 0))
    with (fold_left
            (fun a x =>
               a + (fun p => (p - sumOf xs / INR (length xs))
                             * (p - sumOf xs / INR (length xs))) x)
            xs 0).
  rewrite fold_add_sumOf. simpl. now rewrite Rplus_0_l.
Qed.







(** The variety curve. *)
Lemma varietyOfRate_shape (rate : R) :
  varietyOfRate rate <= 1
  /\ (varietyOfRate rate = 1 <-> rate = 18 / 100)
  /\ (0 <= rate <= 36 / 100 ->
      varietyOfRate rate = 1 - Rabs (rate - 18 / 100) / (18 / 100))
  /\ (rate <= 0 -> varietyOfRate rate = 0)
  /\ (36 / 100 <= rate -> varietyOfRate rate = 0).
Proof.
  unfold varietyOfRate, clamp01, lit; simpl.
  split; [real_cases|]. split; [split; real_cases|].
  repeat split; real_cases.
Qed.




(** On binary64 the two sides of the peak agree only up to rounding:
    [0.27 - 0.18] is two units in the last place above [0.09]. *)
Lemma varietyOfRate_mirror_rounding :
  varietyOfRate (lit 9 100 : Binary64.float)
  <> varietyOfRate (lit 27 100 : Binary64.float)
  /\ round (mul (varietyOfRate (lit 9 100 : Binary64.float)) (ofZ 100))
     = round (mul (varietyOfRate (lit 27 100 : Binary64.float)) (ofZ 100)).
Proof.
  split; [|vm_compute; reflexivity].
  intros Heq. vm_compute in Heq. discriminate Heq.
Qed.


End CurveFacts.

(** ** The note mapper, in exact arithmetic *)

Module NoteFacts.
Import NoteMapper Samples.

Local Open Scope R_scope.

Lemma Int_part_IZR (k : Z) : Int_part (IZR k) = k.
Proof. symmetry. apply Int_part_spec. lra. Qed.

Lemma RtoZ_IZR (k : Z) : Ideal.RtoZ (IZR k) = Some k.
Proof.
  unfold Ideal.RtoZ. rewrite Int_part_IZR.
  destruct (Req_dec_T (IZR k) (IZR k)); [reflexivity|contradiction].
Qed.

Lemma midiOf_integer (hz : R) : midiOf hz = IZR (midiZ hz).
Proof.
  change (midiOf hz)
    with (69 + IZR (Int_part (12 * (ln (hz / 440) / ln 2) + / 2))).
  unfold midiZ. now rewrite plus_IZR.
Qed.

(** [hzToNote] always answers, with the name at [(midi + 1200) % 12] and
    the octave [floor(midi / 12) - 1]. *)
Lemma hzToNote_text (hz : R) :
  hzToNote hz
  = Some (template (nameAt (Z.rem (midiZ hz + 1200) 12))
                   (midiZ hz / 12 - 1)).
Proof.
  unfold hzToNote. rewrite midiOf_integer.
  change (toZ (add (IZR (midiZ hz)) (ofZ 1200)))
    with (Ideal.RtoZ (IZR (midiZ hz) + IZR 1200)).
  change (floorZ (div (IZR (midiZ hz)) (ofZ 12)))
    with (Int_part (IZR (midiZ hz) / IZR 12)).
  rewrite <- plus_IZR, RtoZ_IZR.
  now rewrite (PitchFacts.floor_quotient (midiZ hz) 12) by lia.
Qed.


Lemma ln_2_pos : 0 < ln 2.
Proof. rewrite <- ln_1. apply ln_increasing; lra. Qed.








(** Concert pitch and its octave, spelled out. *)
Lemma hzToNote_A4_A5 :
  hzToNote 440 = Some "A4"%string /\ hzToNote 880 = Some "A5"%string.
Proof.
  assert (H440 : midiZ 440 = 69%Z).
  { unfold midiZ. replace (440 / 440) with 1 by lra.
    rewrite ln_1. replace (12 * (0 / ln 2) + / 2) with (IZR 0 + / 2).
    - rewrite <- (Int_part_spec (IZR 0 + / 2) 0) by lra. reflexivity.
    - unfold Rdiv. lra. }
  assert (H880 : midiZ 880 = 81%Z).
  { unfold midiZ. replace (880 / 440) with 2 by lra.
    pose proof ln_2_pos.
    replace (12 * (ln 2 / ln 2) + / 2) with (IZR 12 + / 2) by (field; lra).
    rewrite <- (Int_part_spec (IZR 12 + / 2) 12) by lra. reflexivity. }
  split; rewrite hzToNote_text; [rewrite H440 | rewrite H880]; reflexivity.
Qed.

End NoteFacts.

(** ** Names *)

Module NameFacts.
Import Session Names.

Lemma trimStart_clean (s : string) : startsClean (trimStart s).
Proof.
  induction s as [|c r IH]; [exact I|].
  cbn [trimStart]. destruct (isSpace c) eqn:Hc; [exact IH|exact Hc].
Qed.

Lemma trimStart_empty (s : string) :
  trimStart s = EmptyString <-> blank s = true.
Proof.
  induction s as [|c r IH]; [cbn; tauto|].
  cbn [trimStart blank]. destruct (isSpace c); cbn [andb]; [exact IH|].
  split; discriminate.
Qed.

Lemma trimEnd_head (c : ascii) (r : string) :
  isSpace c = false -> exists r', trimEnd (String c r) = String c r'.
Proof.
  intros Hc. cbn [trimEnd]. rewrite Hc.
  destruct (trimEnd r); eexists; reflexivity.
Qed.

Lemma trimEnd_clean (s : string) : startsClean s -> startsClean (trimEnd s).
Proof.
  destruct s as [|c r]; [auto|]. intros Hc.
  destruct (trimEnd_head c r Hc) as (r' & ->). exact Hc.
Qed.

Lemma trimEnd_empty (s : string) :
  startsClean s -> (trimEnd s = EmptyString <-> s = EmptyString).
Proof.
  destruct s as [|c r]; [cbn; tauto|]. intros Hc.
  destruct (trimEnd_head c r Hc) as (r' & ->). split; discriminate.
Qed.

Lemma substring_empty (n : nat) (s : string) :
  String.substring 0 (S n) s = EmptyString <-> s = EmptyString.
Proof. destruct s; cbn; split; auto; discriminate. Qed.

Lemma substring_clean (n : nat) (s : string) :
  startsClean s -> startsClean (String.substring 0 n s).
Proof. destruct s as [|c r], n; cbn; auto. Qed.

Lemma substring_length_le (n : nat) (s : string) :
  (String.length (String.substring 0 n s) <= n)%nat.
Proof.
  revert s; induction n as [|n IH]; intros [|c s]; cbn; auto with arith.
Qed.

(** X1. The name filed on the board, [(playerName || 'Player').trim()
    .slice(0, 18)] on ASCII text, has at most 18 characters and does not
    begin with whitespace; it is [Player] for the empty player name, and
    it is empty exactly for a player name that is not empty and made of
    whitespace only.  (The cut at 18 can leave whitespace at the end.) *)
Theorem entryName_shape (playerName : string) :
  (String.length (entryName playerName) <= 18)%nat
  /\ startsClean (entryName playerName)
  /\ (playerName = EmptyString -> entryName playerName = "Player"%string)
  /\ (entryName playerName = EmptyString
      <-> playerName <> EmptyString /\ blank playerName = true).
Proof.
  split; [apply substring_length_le|].
  split; [apply substring_clean, trimEnd_clean, trimStart_clean|].
  split; [intros ->; reflexivity|].
  unfold entryName. rewrite substring_empty.
  rewrite (trimEnd_empty _ (trimStart_clean _)), trimStart_empty.
  destruct playerName as [|c r].
  - cbn. split; [discriminate|]. intros [Hne _]. now elim Hne.
  - split; [intros Hb; split; [discriminate|exact Hb]|intros [_ Hb]; exact Hb].
Qed.

Lemma entryName_shape_witness :
  entryName "" = "Player"%string
  /\ entryName "   " = ""%string.
Proof.
  split.
  - exact (proj1 (proj2 (proj2 (entryName_shape ""))) eq_refl).
  - apply (proj2 (proj2 (proj2 (entryName_shape "   ")))).
    split; [discriminate|reflexivity].
Defined.

End NameFacts.

(** ** Rounds *)

Module RoundFacts.
Import Session Rounds SessionFacts.

Section Generic.

Context {T : Type} `{Number T}.

Lemma run_app (s : App T) (a b : list Event) :
  run s (a ++ b) = run (run s a) b.
Proof. apply fold_left_app. Qed.

(** What no frame changes. *)
Lemma loop_keeps (buf : list T) (s : App T) :
  let s' := loop buf s in
  stage s' = stage s /\ roundTimerId s' = roundTimerId s
  /\ secondsLeft s' = secondsLeft s /\ rateOf s' = rateOf s
  /\ analyser s' = analyser s /\ timeData s' = timeData s
  /\ sameFile s s'.
Proof.
  unfold loop, sameFile, rateOf.
  destruct (negb (analyser s) || negb (timeData s)); simpl; auto 12.
Qed.

Lemma frames_keep (frames : list (list T)) (s : App T) :
  let s' := run s (map Frame frames) in
  stage s' = stage s /\ roundTimerId s' = roundTimerId s
  /\ secondsLeft s' = secondsLeft s /\ rateOf s' = rateOf s
  /\ analyser s' = analyser s /\ timeData s' = timeData s
  /\ sameFile s s'.
Proof.
  revert s; induction frames as [|buf frames IH]; intros s; cbv zeta.
  - unfold sameFile; simpl; auto 12.
  - change (run s (map Frame (buf :: frames)))
      with (run (loop buf s) (map Frame frames)).
    destruct (IH (loop buf s))
      as (A & B & C & D & E & F & G1 & G2 & G3 & G4 & G5).
    destruct (loop_keeps buf s)
      as (A' & B' & C' & D' & E' & F' & K1 & K2 & K3 & K4 & K5).
    unfold sameFile. repeat split; congruence.
Qed.

(** A second that is not the last one of its round. *)
Lemma second_counts (b : Second) (s : App T) (n : Z) (es ps : list T) :
  micOn s -> singingWith n es ps s -> (1 < n)%Z ->
  let s' := run s (second b) in
  micOn s' /\ rateOf s' = rateOf s /\ sameFile s s'
  /\ singingWith (n - 1) (es ++ map frameEnergy (fst b))
                 (ps ++ flat_map (voicedPitch (rateOf s)) (fst b)) s'.
Proof.
  intros [Ha Ht] (Hst & Harm & Hn & He & Hp) Hlt s'.
  unfold s', second. rewrite run_app.
  destruct (frames_accumulate (fst b) s Ha Ht Hst) as [Fe Fp].
  destruct (frames_keep (fst b) s)
    as (A & B & C & D & E & F & G1 & G2 & G3 & G4 & G5).
  cbv zeta in *.
  set (s1 := run s (map Frame (fst b))) in *.
  change (run s1 [Tick (fst (snd b)) (snd (snd b))])
    with (tick (fst (snd b)) (snd (snd b)) s1).
  unfold tick. rewrite B, Harm. cbn [negb].
  cbn [secondsLeft]. rewrite C, Hn.
  destruct (n - 1 <=? 0)%Z eqn:Hz; [apply Z.leb_le in Hz; lia|].
  unfold micOn, sameFile, singingWith, rateOf in *; cbn.
  rewrite Fe, Fp, He, Hp.
  repeat split; try congruence.
Qed.

(** The seconds before the last one. *)
Lemma seconds_count (bs : list Second) (s : App T) (n : Z) (es ps : list T) :
  micOn s -> singingWith n es ps s -> (Z.of_nat (length bs) < n)%Z ->
  let s' := run s (seconds bs) in
  micOn s' /\ rateOf s' = rateOf s /\ sameFile s s'
  /\ singingWith (n - Z.of_nat (length bs))
                 (es ++ map frameEnergy (framesOf bs))
                 (ps ++ flat_map (voicedPitch (rateOf s)) (framesOf bs)) s'.
Proof.
  revert s n es ps; induction bs as [|b bs IH]; intros s n es ps Hm Hs Hlt;
    cbv zeta.
  - cbn. rewrite Z.sub_0_r, !app_nil_r. unfold sameFile. auto 10.
  - cbn [length] in Hlt.
    change (seconds (b :: bs)) with (second b ++ seconds bs).
    rewrite run_app.
    destruct (second_counts b s n es ps Hm Hs ltac:(lia))
      as (Hm1 & Hr1 & Hf1 & Hs1).
    cbv zeta in *.
    destruct (IH _ _ _ _ Hm1 Hs1 ltac:(lia)) as (Hm2 & Hr2 & Hf2 & Hs2).
    cbv zeta in *.
    split; [exact Hm2|]. split; [congruence|].
    split.
    { unfold sameFile in *. intuition congruence. }
    unfold framesOf in *. cbn [flat_map].
    rewrite map_app, flat_map_app, !app_assoc.
    replace (n - Z.of_nat (length (b :: bs)))%Z
      with (n - 1 - Z.of_nat (length bs))%Z by (cbn [length]; lia).
    rewrite Hr1 in Hs2. exact Hs2.
Qed.

(** The last second of a round. *)
Lemma second_finishes (b : Second) (s : App T) (es ps : list T) :
  micOn s -> singingWith 1 es ps s ->
  let s' := run s (second b) in
  let es' := es ++ map frameEnergy (fst b) in
  let ps' := ps ++ flat_map (voicedPitch (rateOf s)) (fst b) in
  let sc := computeScore es' ps' in
  micOn s' /\ stage s' = results /\ roundTimerId s' = false
  /\ secondsLeft s' = 0%Z
  /\ energySamples s' = es' /\ pitchSamples s' = ps'
  /\ lastRound s' = Some {| breakdown := sc; summary_ts := fst (snd b) |}
  /\ leaderboard s'
     = updateLeaderboard (entryFor s sc (snd (snd b))) (leaderboard s)
  /\ personalBest s'
     = match personalBest s with
       | Some best =>
           if ltb (score best) (Engine.score sc)
           then Some (entryFor s sc (snd (snd b))) else Some best
       | None => Some (entryFor s sc (snd (snd b)))
       end.
Proof.
  intros [Ha Ht] (Hst & Harm & Hn & He & Hp) s'.
  unfold s', second. rewrite run_app.
  destruct (frames_accumulate (fst b) s Ha Ht Hst) as [Fe Fp].
  destruct (frames_keep (fst b) s)
    as (A & B & C & D & E & F & G1 & G2 & G3 & G4 & G5).
  cbv zeta in *.
  set (s1 := run s (map Frame (fst b))) in *.
  change (run s1 [Tick (fst (snd b)) (snd (snd b))])
    with (tick (fst (snd b)) (snd (snd b)) s1).
  unfold tick. rewrite B, Harm. cbn [negb].
  cbn [secondsLeft]. rewrite C, Hn.
  change (1 - 1 <=? 0)%Z with true. cbv iota.
  unfold finishRound, entryFor, micOn. cbn.
  rewrite Fe, Fp, He, Hp, G1, G2, G4, G5, E, F.
  repeat split; auto.
Qed.

Lemma startRound_sings (s : App T) :
  micOn s ->
  micOn (startRound s) /\ rateOf (startRound s) = rateOf s
  /\ singingWith 10 [] [] (startRound s)
  /\ playerName (startRound s) = playerName s
  /\ challengeScore (startRound s) = challengeScore s
  /\ lastRound (startRound s) = None
  /\ leaderboard (startRound s) = leaderboard s
  /\ personalBest (startRound s) = personalBest s.
Proof.
  intros [Ha Ht]. unfold startRound, micOn, singingWith, rateOf.
  rewrite Ha, Ht. cbn. auto 15.
Qed.

Lemma seconds_app (bs cs : list (Second (T := T))) :
  seconds (bs ++ cs) = seconds bs ++ seconds cs.
Proof. apply flat_map_app. Qed.

(** Without an armed interval and outside a round, ticks and frames
    leave the round as it is. *)
Lemma idle_step (s : App T) (ev : Event) :
  roundTimerId s = false -> stage s <> singing -> inRound ev = true ->
  let s' := step s ev in
  stage s' = stage s /\ roundTimerId s' = false
  /\ secondsLeft s' = secondsLeft s
  /\ energySamples s' = energySamples s
  /\ pitchSamples s' = pitchSamples s /\ sameFile s s'.
Proof.
  intros Harm Hst Hev.
  destruct ev as [rate| | |now1 now2|buf|]; try discriminate; cbn [step].
  - unfold tick. rewrite Harm. unfold sameFile. cbn. auto 10.
  - unfold loop, sameFile.
    destruct (negb (analyser s) || negb (timeData s)); [auto 10|].
    cbn. destruct (stage s); try contradiction;
      destruct (estimatePitchHz buf (rateOf s)); cbn; auto 10.
Qed.

Lemma idle_run (evs : list Event) (s : App T) :
  roundTimerId s = false -> stage s <> singing ->
  forallb inRound evs = true ->
  let s' := run s evs in
  stage s' = stage s /\ roundTimerId s' = false
  /\ secondsLeft s' = secondsLeft s
  /\ energySamples s' = energySamples s
  /\ pitchSamples s' = pitchSamples s /\ sameFile s s'.
Proof.
  revert s; induction evs as [|ev evs IH]; intros s Harm Hst Hall; cbv zeta.
  - unfold sameFile. cbn. auto 10.
  - cbn in Hall. apply andb_true_iff in Hall as [Hev Hall].
    destruct (idle_step s ev Harm Hst Hev)
      as (A & B & C & D & E & F1 & F2 & F3 & F4 & F5).
    cbv zeta in *.
    assert (Hst' : stage (step s ev) <> singing) by congruence.
    destruct (IH (step s ev) B Hst' Hall)
      as (A' & B' & C' & D' & E' & G1 & G2 & G3 & G4 & G5).
    cbv zeta in *.
    change (run s (ev :: evs)) with (run (step s ev) evs).
    unfold sameFile. repeat split; congruence.
Qed.

End Generic.

(** X2. A round lasts ten ticks of its timer.  With the microphone
    enabled, a started round is still being sung after each of the
    first nine ticks, the clock reading one second less each time and
    nothing yet on file; the tenth tick ends it: the stage becomes
    [results], the timer is disarmed, and the summary and the new
    leaderboard entry carry the score of exactly the frames drawn
    between the start and that tick. *)
Theorem round_lasts_ten_ticks {T} `{Number T}
    (s : App T) (bs : list Second) (b : Second) :
  micOn s -> length bs = 9%nat ->
  let frames := framesOf (bs ++ [b]) in
  let sc := computeScore (map frameEnergy frames)
                         (flat_map (voicedPitch (rateOf s)) frames) in
  (forall k : nat,
      (k <= 9)%nat ->
      let sk := run (startRound s) (seconds (firstn k bs)) in
      stage sk = singing /\ secondsLeft sk = (10 - Z.of_nat k)%Z
      /\ lastRound sk = None /\ leaderboard sk = leaderboard s
      /\ personalBest sk = personalBest s)
  /\ (let s' := run (startRound s) (seconds (bs ++ [b])) in
      stage s' = results /\ roundTimerId s' = false
      /\ secondsLeft s' = 0%Z
      /\ lastRound s' = Some {| breakdown := sc; summary_ts := fst (snd b) |}
      /\ leaderboard s'
         = updateLeaderboard (entryFor s sc (snd (snd b))) (leaderboard s)).
Proof.
  intros Hm Hlen frames sc.
  destruct (startRound_sings s Hm)
    as (Hm0 & Hr0 & Hs0 & Hn0 & Hc0 & Hl0 & Hb0 & Hp0).
  split.
  - intros k Hk sk.
    assert (Hlk : length (firstn k bs) = k) by (rewrite length_firstn; lia).
    destruct (seconds_count (firstn k bs) (startRound s) 10 [] [] Hm0 Hs0
                ltac:(lia))
      as (_ & _ & (_ & _ & F3 & F4 & F5) & (S1 & _ & S3 & _)).
    fold sk in F3, F4, F5, S1, S3. rewrite Hlk in S3.
    repeat split; congruence.
  - cbv zeta. rewrite seconds_app, run_app.
    destruct (seconds_count bs (startRound s) 10 [] [] Hm0 Hs0 ltac:(lia))
      as (Hm1 & Hr1 & (F1 & F2 & F3 & F4 & F5) & Hs1).
    cbv zeta in *. rewrite Hlen in Hs1.
    change (10 - Z.of_nat 9)%Z with 1%Z in Hs1. cbn [app] in Hs1.
    change (seconds [b]) with (second b ++ []). rewrite app_nil_r.
    destruct (second_finishes b _ _ _ Hm1 Hs1)
      as (_ & A & B & C & _ & _ & D & E & _).
    cbv zeta in *.
    unfold sc, frames, framesOf. rewrite flat_map_app. cbn [flat_map].
    rewrite app_nil_r, map_app, flat_map_app.
    rewrite Hr1, Hr0 in D, E.
    unfold framesOf in D, E.
    repeat split; auto.
    rewrite E, F4, Hb0. f_equal.
    unfold entryFor. now rewrite F1, F2, Hn0, Hc0.
Qed.

Lemma round_lasts_ten_ticks_witness :
  let s : App Binary64.float := enableMic 44100 initial in
  let bs := repeat ([Samples.clippedFrame], (ofZ 1, ofZ 2)) 9 in
  let b := ([Samples.clippedFrame], (ofZ 3, ofZ 4)) in
  stage (run (startRound s) (seconds (bs ++ [b]))) = results.
Proof.
  intros s bs b.
  exact (proj1 (proj2 (round_lasts_ten_ticks s bs b
                         (conj eq_refl eq_refl) eq_refl))).
Defined.

(** X3. Once a round is over, nothing scores again.  While the interval
    is disarmed and no round is being sung (after the tenth tick, after
    an abort, before the first start), ticks and frames in any number
    and order leave the stage, the clock, both sample buffers, the
    summary, the leaderboard and the personal best as they are. *)
Theorem idle_changes_nothing {T} `{Number T}
    (s : App T) (evs : list Event) :
  roundTimerId s = false -> stage s <> singing ->
  forallb inRound evs = true ->
  let s' := run s evs in
  stage s' = stage s /\ roundTimerId s' = false
  /\ secondsLeft s' = secondsLeft s
  /\ energySamples s' = energySamples s
  /\ pitchSamples s' = pitchSamples s /\ sameFile s s'.
Proof. intros Harm Hst Hall. exact (idle_run evs s Harm Hst Hall). Qed.

Lemma idle_changes_nothing_witness :
  let s := finishRound (ofZ 1) (ofZ 2) Samples.roundToFinish in
  energySamples
    (run s [Frame Samples.clippedFrame; Tick (ofZ 3) (ofZ 4)])
  = energySamples s.
Proof.
  intros s.
  refine (proj1 (proj2 (proj2 (proj2
    (idle_changes_nothing s
       [Frame Samples.clippedFrame; Tick (ofZ 3) (ofZ 4)]
       eq_refl _ eq_refl))))).
  discriminate.
Defined.

(** X4. An aborted round scores nothing.  With the microphone enabled,
    a round started and stopped before its tenth tick leaves no
    summary, the leaderboard and the personal best as they were, the
    stage at [ready] and the interval disarmed, whatever frames and
    ticks follow. *)
Theorem abort_scores_nothing {T} `{Number T}
    (s : App T) (bs : list Second) (frames : list (list T))
    (later : list Event) :
  micOn s -> (length bs <= 9)%nat -> forallb inRound later = true ->
  let s' :=
    run (stopRound (run (startRound s) (seconds bs ++ map Frame frames)))
        later in
  stage s' = ready /\ roundTimerId s' = false /\ lastRound s' = None
  /\ leaderboard s' = leaderboard s /\ personalBest s' = personalBest s.
Proof.
  intros Hm Hlen Hall.
  destruct (startRound_sings s Hm)
    as (Hm0 & Hr0 & Hs0 & Hn0 & Hc0 & Hl0 & Hb0 & Hp0).
  rewrite run_app.
  destruct (seconds_count bs (startRound s) 10 [] [] Hm0 Hs0 ltac:(lia))
    as ([Ha1 Ht1] & Hr1 & (F1 & F2 & F3 & F4 & F5) & Hs1).
  cbv zeta in *.
  set (s1 := run (startRound s) (seconds bs)) in *.
  destruct (frames_keep frames s1)
    as (A & B & C & D & E & F & G1 & G2 & G3 & G4 & G5).
  cbv zeta in *.
  set (s2 := run s1 (map Frame frames)) in *.
  assert (Hst : stage (stopRound s2) = ready).
  { unfold stopRound; cbn. now rewrite E, Ha1. }
  destruct (idle_run later (stopRound s2) eq_refl
              ltac:(rewrite Hst; discriminate) Hall)
    as (A' & B' & _ & _ & _ & K1 & K2 & K3 & K4 & K5).
  cbv zeta in *. cbn [stopRound lastRound leaderboard personalBest] in *.
  repeat split; try congruence.
Qed.

Lemma abort_scores_nothing_witness :
  let s : App Binary64.float := enableMic 44100 initial in
  lastRound
    (run (stopRound
            (run (startRound s)
                 (seconds [([Samples.clippedFrame], (ofZ 1, ofZ 2))]
                  ++ map Frame [Samples.clippedFrame])))
         [Tick (ofZ 3) (ofZ 4)])
  = None.
Proof.
  intros s.
  refine (proj1 (proj2 (proj2
    (abort_scores_nothing s [([Samples.clippedFrame], (ofZ 1, ofZ 2))]
       [Samples.clippedFrame] [Tick (ofZ 3) (ofZ 4)]
       (conj eq_refl eq_refl) _ eq_refl)))).
  cbn; lia.
Defined.

End RoundFacts.

(** ** What every run keeps *)

Module InvariantFacts.
Import Session Rounds SessionFacts LeaderboardFacts NameFacts.

Section Generic.

Context {T : Type} `{Number T}.

Lemma wellKept_initial : wellKept (T := T) initial.
Proof.
  unfold wellKept; cbn. repeat split; try lia; try discriminate; auto.
Qed.

Lemma wellKept_step (s : App T) (ev : Event) :
  wellKept s -> wellKept (step s ev).
Proof.
  intros Hs. pose proof Hs as (Hc & Harm & Hsing & Hres & Hlen & Htr).
  destruct ev as [rate| | |now1 now2|buf|]; cbn [step].
  - unfold wellKept, enableMic; cbn.
    repeat split; auto; try lia; try discriminate.
  - unfold startRound.
    destruct (negb (analyser s) || negb (timeData s)) eqn:Hg.
    + exact Hs.
    + apply orb_false_iff in Hg as [Ha Ht].
      apply negb_false_iff in Ha, Ht.
      unfold wellKept; cbn.
      repeat split; auto; try lia; try discriminate.
  - unfold wellKept, stopRound; cbn.
    repeat split; auto; try lia; try discriminate;
      destruct (analyser s); discriminate.
  - unfold tick. destruct (roundTimerId s) eqn:Ht; cbn [negb].
    + specialize (Harm eq_refl). cbn [secondsLeft].
      destruct (secondsLeft s - 1 <=? 0)%Z eqn:Hz.
      * apply Z.leb_le in Hz.
        unfold wellKept, finishRound; cbn.
        repeat split; auto; try lia; try discriminate.
      * apply Z.leb_gt in Hz.
        unfold wellKept; cbn.
        repeat split; auto; try lia; try (apply Hsing; auto).
    + exact Hs.
  - unfold loop.
    destruct (negb (analyser s) || negb (timeData s)) eqn:Hg.
    + exact Hs.
    + unfold wellKept; cbn.
      repeat split; auto; try lia; try (apply Hsing; auto).
      * destruct (estimatePitchHz buf (rateOf s)) as [p|];
          destruct (stage s); cbn; try destruct (truthy p);
          rewrite ?length_app; cbn; lia.
      * destruct (estimatePitchHz buf (rateOf s)) as [p|]; auto.
        destruct (stage s); cbn; auto.
        destruct (truthy p) eqn:Hp; auto.
        apply Forall_app. split; auto.
  - unfold wellKept, ngOnDestroy, stopAudio, stopRound; cbn.
    repeat split; auto; try lia; try discriminate;
      destruct (analyser s); discriminate.
Qed.

Lemma wellKept_run (evs : list Event) (s : App T) :
  wellKept s -> wellKept (run s evs).
Proof.
  revert s; induction evs as [|ev evs IH]; intros s Hs; [exact Hs|].
  cbn. apply IH, wellKept_step, Hs.
Qed.

(** *** The board *)


Lemma updateLeaderboard_length (e : ScoreEntry T) (b : list (ScoreEntry T)) :
  length (updateLeaderboard e b) = Nat.min 25 (S (length b)).
Proof.
  unfold updateLeaderboard. rewrite length_firstn.
  now rewrite (Permutation_length (sortBy_perm compareEntries (e :: b))).
Qed.

Lemma In_firstn {A} (n : nat) (l : list A) (x : A) :
  In x (firstn n l) -> In x l.
Proof.
  intros Hx. rewrite <- (firstn_skipn n l). apply in_or_app. now left.
Qed.

Lemma updateLeaderboard_Forall (P : ScoreEntry T -> Prop)
    (e : ScoreEntry T) (b : list (ScoreEntry T)) :
  P e -> Forall P b -> Forall P (updateLeaderboard e b).
Proof.
  intros He Hb. unfold updateLeaderboard.
  apply Forall_forall. intros x Hx.
  apply In_firstn in Hx.
  apply (Permutation_in _ (sortBy_perm compareEntries (e :: b))) in Hx.
  destruct Hx as [<-|Hx]; [exact He|].
  revert x Hx. now apply Forall_forall.
Qed.





End Generic.

(** X5. The round bookkeeping holds whatever the browser does.  After
    any sequence of events on a fresh component, the clock reads between
    0 and 10, and at least 1 while the interval is armed; a round being
    sung has its interval armed and the microphone enabled; results on
    screen come with a summary; there are never more recorded pitches
    than recorded energies, and every recorded pitch is truthy (neither
    zero nor NaN). *)
Theorem bookkeeping_invariant {T} `{Number T} (evs : list Event) :
  wellKept (T := T) (run initial evs).
Proof. apply wellKept_run, wellKept_initial. Qed.


(** X7. A finalization files exactly one entry.  On any carrier and
    whatever the comparator makes of the scores, the board after
    [finishRound] has one entry more than before, up to the cap of 25;
    each of its entries is the new entry or was on the board; below the
    cap nothing is lost; and both sample buffers are left as they
    are. *)
Theorem finishRound_files_one_entry {T} `{Number T}
    (now1 now2 : T) (s : App T) :
  let s' := finishRound now1 now2 s in
  let entry :=
    entryFor s (computeScore (energySamples s) (pitchSamples s)) now2 in
  length (leaderboard s') = Nat.min 25 (S (length (leaderboard s)))
  /\ (forall e, In e (leaderboard s') -> e = entry \/ In e (leaderboard s))
  /\ ((length (leaderboard s) < 25)%nat ->
      Permutation (leaderboard s') (entry :: leaderboard s))
  /\ energySamples s' = energySamples s
  /\ pitchSamples s' = pitchSamples s.
Proof.
  cbv zeta. unfold finishRound, entryFor.
  cbn [leaderboard energySamples pitchSamples].
  set (entry := {| name := _; score := _; ts := now2; mode := _ |}).
  split; [apply updateLeaderboard_length|].
  split.
  - intros e He. unfold updateLeaderboard in He.
    apply In_firstn in He.
    apply (Permutation_in _ (sortBy_perm compareEntries _)) in He.
    destruct He as [<-|He]; auto.
  - split; [|split; reflexivity].
    intros Hlen. unfold updateLeaderboard.
    rewrite firstn_all2; [apply sortBy_perm|].
    rewrite (Permutation_length (sortBy_perm compareEntries _)).
    cbn [length]. lia.
Qed.

Lemma finishRound_files_one_entry_witness :
  Permutation
    (leaderboard (finishRound (ofZ 1) (ofZ 2) Samples.roundToFinish))
    (entryFor Samples.roundToFinish
       (computeScore (energySamples Samples.roundToFinish)
                     (pitchSamples Samples.roundToFinish))
       (ofZ 2)
     :: leaderboard Samples.roundToFinish).
Proof.
  apply (proj1 (proj2 (proj2
    (finishRound_files_one_entry (ofZ 1) (ofZ 2) Samples.roundToFinish)))).
  cbn. lia.
Defined.

End InvariantFacts.

(** ** The personal best *)

Module BestFacts.
Import Session Rounds Challenge SessionFacts LeaderboardFacts InvariantFacts.

Local Open Scope R_scope.







(** X10. When the confetti fires.  Reading numbers as reals, the test
    [personalBest && entry.ts === personalBest.ts] at the end of
    [finishRound] holds exactly when there was no personal best yet, or
    the round's score is strictly above the previous best, or the
    previous best was filed at the very clock reading of the new
    entry.  A round that only equals the best does not fire it. *)
Theorem firesConfetti_when (now1 now2 : R) (s : App R) :
  firesConfetti now1 now2 s = true
  <-> match personalBest s with
      | None => True
      | Some best =>
          score best
          < Engine.score (computeScore (energySamples s) (pitchSamples s))
          \/ ts best = now2
      end.
Proof.
  unfold firesConfetti, finishRound; cbn [personalBest].
  destruct (personalBest s) as [best|].
  - cbn [ltb Ideal.number score]. unfold Ideal.Rltb.
    match goal with |- context [Rlt_dec ?a ?b] => destruct (Rlt_dec a b) end;
      unfold strictEq; cbn [ts leb Ideal.number]; unfold Ideal.Rleb;
      decide_reals; cbn; split; intros; try discriminate; auto; try lra.
    all: try (destruct H; [contradiction|lra]).
  - unfold strictEq; cbn [ts leb Ideal.number]; unfold Ideal.Rleb.
    decide_reals; cbn; split; intros; auto; lra.
Qed.


Lemma firesConfetti_when_witness :
  firesConfetti 1 2 (initial : App R) = true.
Proof.
  apply (proj2 (firesConfetti_when 1 2 initial)). exact I.
Defined.

End BestFacts.

(** ** The estimator *)

Module EstimatorFacts.
Import Notions PitchFacts.

Section Generic.

Context {T : Type} `{Number T}.

Hypothesis zero_not_below_zero : ltb (ofZ 0 : T) (ofZ 0) = false.

Lemma correlation_short (buf : list T) (mean : T) (lag : nat) :
  (length buf <= lag)%nat -> correlation buf mean lag = ofZ 0.
Proof.
  intros Hle. unfold correlation.
  replace (length buf - lag)%nat with 0%nat by lia. reflexivity.
Qed.

(** Where no lag correlates, the scan ends as it began. *)
Lemma scan_flat (buf : list T) (mean : T) (ls : list Z) :
  (forall l, In l ls -> correlation buf mean (Z.to_nat l) = ofZ 0) ->
  scanLags buf mean ls = ((-1)%Z, ofZ 0).
Proof.
  unfold scanLags. induction ls as [|l ls IH]; intros Hls; [reflexivity|].
  cbn [fold_left]. unfold scanStep at 2. cbn [snd].
  rewrite Hls by now left.
  rewrite zero_not_below_zero. apply IH. intros k Hk. apply Hls. now right.
Qed.

Lemma scan_without_overlap (buf : list T) (mean : T) (ls : list Z) :
  (forall l, In l ls -> (length buf <= Z.to_nat l)%nat) ->
  scanLags buf mean ls = ((-1)%Z, ofZ 0).
Proof.
  intros Hls. apply scan_flat. intros l Hl.
  apply correlation_short, Hls, Hl.
Qed.

Lemma short_frame (buf : list T) (sampleRate : Z) :
  (Z.of_nat (length buf) <= minLag sampleRate)%Z ->
  estimatePitchHz buf sampleRate = None.
Proof.
  intros Hle. unfold estimatePitchHz.
  destruct (ltb (rootMeanSquare buf) _); [reflexivity|].
  rewrite scan_without_overlap; [reflexivity|].
  intros l Hl. apply In_upto in Hl. lia.
Qed.

End Generic.

(** X11. A frame no longer than the smallest lag has no pitch, on
    binary64 and in exact arithmetic: no lag of the search range leaves
    two samples to compare, every correlation is the empty sum, and
    [bestLag] stays at [-1].  At 44100 Hz this is every frame of at most
    55 samples. *)
Theorem estimatePitchHz_short_frame :
  (forall (buf : list Binary64.float) (sampleRate : Z),
      (Z.of_nat (length buf) <= minLag (T := Binary64.float) sampleRate)%Z ->
      estimatePitchHz buf sampleRate = None)
  /\ (forall (buf : list R) (sampleRate : Z),
      (Z.of_nat (length buf) <= minLag (T := R) sampleRate)%Z ->
      estimatePitchHz buf sampleRate = None).
Proof.
  split; intros buf sampleRate; apply short_frame.
  - reflexivity.
  - cbn. unfold Ideal.Rltb. destruct (Rlt_dec 0 0); [lra|reflexivity].
Qed.

Lemma estimatePitchHz_short_frame_witness :
  estimatePitchHz (repeat (ofZ 1 : Binary64.float) 55) 44100 = None.
Proof.
  apply (proj1 estimatePitchHz_short_frame).
  vm_compute. discriminate.
Defined.

Local Open Scope R_scope.

(** The scan keeps the first lag of the greatest correlation. *)
Lemma scan_first_maximum (buf : list R) (mean : R) (lo : Z) (n : nat) :
  forall (a : nat) (best : Z * R),
    let c := fun k : nat => correlation buf mean (Z.to_nat (lo + Z.of_nat k)) in
    let r := fold_left (scanStep buf mean)
                       (map (fun k => (lo + Z.of_nat k)%Z) (seq a n)) best in
    snd best <= snd r
    /\ (forall k, (a <= k < a + n)%nat -> c k <= snd r)
    /\ (r = best
        \/ exists k, (a <= k < a + n)%nat
                     /\ r = ((lo + Z.of_nat k)%Z, c k)
                     /\ snd best < snd r
                     /\ forall j, (a <= j < k)%nat -> c j < snd r).
Proof.
  induction n as [|n IH]; intros a best c r.
  - cbn in r. subst r. split; [lra|]. split; [intros k Hk; lia|now left].
  - cbn [seq map fold_left] in r.
    set (best1 := scanStep buf mean best (lo + Z.of_nat a)) in r.
    destruct (IH (S a) best1) as (Hle & Hall & Hcase).
    fold c in Hall, Hcase. fold r in Hle, Hall, Hcase.
    assert (Hstep : (best1 = best /\ c a <= snd best)
                    \/ (best1 = ((lo + Z.of_nat a)%Z, c a)
                        /\ snd best < c a)).
    { unfold best1, scanStep. fold (c a).
      cbn [ltb Ideal.number]. unfold Ideal.Rltb.
      destruct (Rlt_dec (snd best) (c a)); [right|left]; split; auto; lra. }
    destruct Hstep as [[Hb Hca]|[Hb Hca]].
    + rewrite Hb in *. split; [lra|]. split.
      * intros k Hk. destruct (Nat.eq_dec k a) as [->|Hne]; [lra|].
        apply Hall. lia.
      * destruct Hcase as [Heq|(k & Hk & Hr & Hlt & Hbefore)]; [now left|].
        right. exists k. split; [lia|]. split; [exact Hr|].
        split; [exact Hlt|].
        intros j Hj. destruct (Nat.eq_dec j a) as [->|Hne]; [lra|].
        apply Hbefore. lia.
    + rewrite Hb in Hle, Hcase. cbn [snd] in Hle, Hcase.
      split; [lra|]. split.
      * intros k Hk. destruct (Nat.eq_dec k a) as [->|Hne]; [lra|].
        apply Hall. lia.
      * right.
        destruct Hcase as [Heq|(k & Hk & Hr & Hlt & Hbefore)].
        -- exists a. split; [lia|]. split; [exact Heq|].
           rewrite Heq. cbn [snd]. split; [lra|]. intros j Hj; lia.
        -- exists k. split; [lia|]. split; [exact Hr|].
           split; [lra|].
           intros j Hj. destruct (Nat.eq_dec j a) as [->|Hne]; [lra|].
           apply Hbefore. lia.
Qed.

(** X12. The estimate is the sample rate over the first lag of greatest
    correlation.  In exact arithmetic, a non-null estimate is
    [sampleRate / lag] for a positive lag of the search range whose
    correlation (the mean removed) is positive, is not exceeded by that
    of any lag of the range, and strictly exceeds that of every smaller
    lag of the range. *)
Theorem estimatePitchHz_first_maximum
    (buf : list R) (sampleRate : Z) (hz : R) :
  estimatePitchHz buf sampleRate = Some hz ->
  exists lag : Z,
    (sampleRate / 800 <= lag <= sampleRate / 80)%Z /\ (0 < lag)%Z
    /\ hz = IZR sampleRate / IZR lag
    /\ 0 < corrAt buf lag
    /\ forall l : Z,
         (sampleRate / 800 <= l <= sampleRate / 80)%Z ->
         corrAt buf l <= corrAt buf lag
         /\ ((l < lag)%Z -> corrAt buf l < corrAt buf lag).
Proof.
  unfold estimatePitchHz.
  destruct (ltb (rootMeanSquare buf) _); [discriminate|].
  set (mean := div (sum buf) (len buf)).
  rewrite minLag_exact, maxLag_exact.
  set (lo := (sampleRate / 800)%Z). set (hi := (sampleRate / 80)%Z).
  unfold scanLags, upto.
  destruct (scan_first_maximum buf mean lo (Z.to_nat (hi - lo + 1)) 0
              ((-1)%Z, 0))
    as (Hle & Hall & [Heq|(k & Hk & Hr & Hlt & Hbefore)]).
  - change (ofZ 0) with 0. rewrite Heq. discriminate.
  - change (ofZ 0) with 0. rewrite Hr in *. cbn [fst snd] in *.
    destruct (Z.leb_spec (lo + Z.of_nat k) 0) as [|Hpos]; [discriminate|].
    cbn [negb isFinite Ideal.number]. intros [= <-].
    exists (lo + Z.of_nat k)%Z.
    split; [lia|]. split; [exact Hpos|]. split; [reflexivity|].
    unfold corrAt. fold mean. split; [exact Hlt|].
    intros l Hl.
    replace l with (lo + Z.of_nat (Z.to_nat (l - lo)))%Z by lia.
    split.
    + apply Hall. lia.
    + intros Hlk. apply Hbefore. lia.
Qed.

Lemma scanStep_take (buf : list R) (mean : R) (best : Z * R) (lag : Z) :
  snd best < correlation buf mean (Z.to_nat lag) ->
  scanStep buf mean best lag = (lag, correlation buf mean (Z.to_nat lag)).
Proof.
  intros Hlt. unfold scanStep. cbn [ltb Ideal.number]. unfold Ideal.Rltb.
  destruct (Rlt_dec _ _); [reflexivity|contradiction].
Qed.

Lemma scanStep_keep (buf : list R) (mean : R) (best : Z * R) (lag : Z) :
  correlation buf mean (Z.to_nat lag) <= snd best ->
  scanStep buf mean best lag = best.
Proof.
  intros Hle. unfold scanStep. cbn [ltb Ideal.number]. unfold Ideal.Rltb.
  destruct (Rlt_dec _ _); [lra|reflexivity].
Qed.

(** Two crests a lag of 2 apart, at 800 Hz. *)
Lemma two_crests : estimatePitchHz [1; 0; 1] 800 = Some (IZR 800 / IZR 2).
Proof.
  unfold estimatePitchHz.
  rewrite minLag_exact, maxLag_exact.
  change (upto (800 / 800) (800 / 80)) with [1; 2; 3; 4; 5; 6; 7; 8; 9; 10]%Z.
  assert (Hrms : ltb (rootMeanSquare [1; 0; 1]) (lit 15 1000) = false).
  { unfold rootMeanSquare, sumSquares, len, lit.
    cbn [fold_left length ltb Ideal.number ofZ add mul div sqrt Z.of_nat
         Pos.of_succ_nat Pos.succ].
    unfold Ideal.Rltb.
    match goal with
    | |- context [Rlt_dec ?a ?b] => destruct (Rlt_dec a b) as [Hlt|]
    end; [|reflexivity].
    exfalso. apply Rlt_not_le in Hlt. apply Hlt.
    rewrite <- (sqrt_square (15 / 1000)) by lra.
    apply sqrt_le_1_alt. lra. }
  rewrite Hrms.
  assert (Hmean : div (sum [1; 0; 1]) (len [1; 0; 1]) = 2 / 3).
  { unfold sum, len.
    cbn [fold_left length Ideal.number ofZ add div Z.of_nat
         Pos.of_succ_nat Pos.succ]. lra. }
  rewrite Hmean.
  assert (H1 : correlation [1; 0; 1] (2 / 3) 1 = - (4 / 9)).
  { unfold correlation.
    cbn [fold_left length seq Nat.sub Nat.add nth Ideal.number ofZ add mul
         sub]. lra. }
  assert (H2 : correlation [1; 0; 1] (2 / 3) 2 = 1 / 9).
  { unfold correlation.
    cbn [fold_left length seq Nat.sub Nat.add nth Ideal.number ofZ add mul
         sub]. lra. }
  assert (H3 : forall lag : nat,
             (3 <= lag)%nat -> correlation [1; 0; 1] (2 / 3) lag = 0).
  { intros lag Hlag. change 0 with (ofZ 0 : R).
    apply correlation_short. cbn [length]. lia. }
  unfold scanLags. cbn [fold_left].
  rewrite (scanStep_keep _ _ _ 1)
    by (change (Z.to_nat 1) with 1%nat; rewrite H1;
        cbn [snd ofZ Ideal.number]; lra).
  rewrite (scanStep_take _ _ _ 2)
    by (change (Z.to_nat 2) with 2%nat; rewrite H2;
        cbn [snd ofZ Ideal.number]; lra).
  change (Z.to_nat 2) with 2%nat. rewrite H2.
  assert (Hkeep : forall lag : Z,
             (3 <= lag)%Z ->
             scanStep [1; 0; 1] (2 / 3) (2%Z, 1 / 9) lag = (2%Z, 1 / 9)).
  { intros lag Hlag. apply scanStep_keep.
    rewrite H3 by lia. cbn [snd]. lra. }
  rewrite !Hkeep by lia.
  cbn [fst]. reflexivity.
Qed.

Lemma estimatePitchHz_first_maximum_witness :
  exists lag : Z,
    (800 / 800 <= lag <= 800 / 80)%Z /\ (0 < lag)%Z
    /\ IZR 800 / IZR 2 = IZR 800 / IZR lag
    /\ 0 < corrAt [1; 0; 1] lag
    /\ forall l : Z,
         (800 / 800 <= l <= 800 / 80)%Z ->
         corrAt [1; 0; 1] l <= corrAt [1; 0; 1] lag
         /\ ((l < lag)%Z -> corrAt [1; 0; 1] l < corrAt [1; 0; 1] lag).
Proof.
  exact (estimatePitchHz_first_maximum [1; 0; 1] 800 (IZR 800 / IZR 2)
           two_crests).
Defined.

(** *** Frames of one repeated value *)







(** X14. A frame with a pitch is never quiet.  In exact arithmetic, a
    frame for which [estimatePitchHz] answers at any sample rate has an
    energy, as [loop] computes it, between 0.06 and 1: the silence gate
    at an RMS of 0.015 is the energy 0.06 after the boost by 4. *)
Theorem voiced_frame_energy (buf : list R) (sampleRate : Z) (hz : R) :
  estimatePitchHz buf sampleRate = Some hz ->
  6 / 100 <= frameEnergy buf <= 1.
Proof.
  unfold estimatePitchHz, frameEnergy, clamp01, lit.
  cbn [ltb max min mul div ofZ Ideal.number]. unfold Ideal.Rltb.
  destruct (Rlt_dec (rootMeanSquare buf) (15 / 1000)) as [|Hge];
    [discriminate|].
  intros _. apply Rnot_lt_le in Hge.
  set (x := rootMeanSquare buf * 4).
  assert (Hx : 6 / 100 <= x) by (unfold x; lra).
  pose proof (Rmin_l 1 x). pose proof (Rmax_r 0 (Rmin 1 x)).
  assert (6 / 100 <= Rmin 1 x) by (apply Rmin_glb; lra).
  assert (Rmax 0 (Rmin 1 x) <= 1) by (apply Rmax_lub; lra).
  lra.
Qed.

Lemma voiced_frame_energy_witness :
  6 / 100 <= frameEnergy [1; 0; 1] <= 1.
Proof.
  exact (voiced_frame_energy [1; 0; 1] 800 (IZR 800 / IZR 2) two_crests).
Defined.

End EstimatorFacts.

(** ** Saturation, silence and the challenge link *)

Module SaturationFacts.
Import Binary64 Binary64Facts EnergyFacts.

Lemma SFcompare_antisym (x y : float) :
  SFcompare y x = option_map CompOpp (SFcompare x y).
Proof.
  destruct x as [sx|sx| |sx mx ex], y as [sy|sy| |sy my ey]; cbn;
    try reflexivity;
    try (destruct sx; reflexivity); try (destruct sy; reflexivity);
    try (destruct sx, sy; reflexivity).
  destruct sx, sy; cbn; try reflexivity;
    rewrite (Z.compare_antisym ex ey);
    destruct (ex ?= ey)%Z; cbn; try reflexivity;
    change (PosDef.Pos.compare_cont Eq my mx) with (Pos.compare my mx);
    change (PosDef.Pos.compare_cont Eq mx my) with (Pos.compare mx my);
    rewrite (Pos.compare_antisym mx my);
    destruct (Pos.compare mx my); reflexivity.
Qed.

Lemma leb_not_ltb (x y : float) : SFleb x y = true -> SFltb y x = false.
Proof.
  unfold SFleb, SFltb. rewrite (SFcompare_antisym x y).
  destruct (SFcompare x y) as [[| |]|]; cbn; congruence.
Qed.

(** X15. [clamp01] on binary64.  It returns NaN exactly for NaN; it is
    idempotent; it returns its argument when that lies strictly between
    0 and 1, [+0] for every argument at most 0 (zeros of either sign
    and minus infinity included) and 1 for every argument at least 1
    (plus infinity included). *)
Theorem clamp01_saturates (x : float) :
  (clamp01 x = nan <-> x = nan)
  /\ clamp01 (clamp01 x) = clamp01 x
  /\ (ltb (ofZ 0) x = true -> ltb x (ofZ 1) = true -> clamp01 x = x)
  /\ (leb x (ofZ 0) = true -> clamp01 x = ofZ 0)
  /\ (leb (ofZ 1) x = true -> clamp01 x = ofZ 1).
Proof.
  unfold clamp01.
  change (ofZ 0 : float) with (S754_zero false).
  change (ofZ 1 : float) with (S754_finite false 4503599627370496 (-52)).
  set (one := S754_finite false 4503599627370496 (-52)).
  destruct x as [s|s| |s m e].
  - destruct s; cbn; repeat split; intros; try discriminate; auto.
  - destruct s; cbn; repeat split; intros; try discriminate; auto.
  - cbn; repeat split; intros; try discriminate; auto.
  - change (min one (S754_finite s m e))
      with (if SFltb (S754_finite s m e) one
            then S754_finite s m e else one).
    destruct (SFltb (S754_finite s m e) one) eqn:Hlt.
    + destruct s.
      * cbn. repeat split; intros; try discriminate; auto.
      * change (max (S754_zero false) (S754_finite false m e))
          with (S754_finite false m e).
        change (min one (S754_finite false m e))
          with (if SFltb (S754_finite false m e) one
                then S754_finite false m e else one).
        rewrite Hlt.
        change (max (S754_zero false) (S754_finite false m e))
          with (S754_finite false m e).
        repeat split; intros; try discriminate; auto.
        change (SFleb one (S754_finite false m e) = true) in H.
        apply leb_not_ltb in H. congruence.
    + change (max (S754_zero false) one) with one.
      change (max (S754_zero false) (min one one)) with one.
      repeat split; intros; try discriminate; auto.
      * change (ltb (S754_finite s m e) one)
          with (SFltb (S754_finite s m e) one) in H0. congruence.
      * destruct s; cbn in H; discriminate.
Qed.

Lemma clamp01_saturates_witness :
  clamp01 (lit 5 10 : float) = lit 5 10
  /\ clamp01 (ofZ (-3) : float) = ofZ 0
  /\ clamp01 (ofZ 7 : float) = ofZ 1.
Proof.
  split; [|split].
  - apply (proj1 (proj2 (proj2 (clamp01_saturates (lit 5 10)))));
      vm_compute; reflexivity.
  - apply (proj1 (proj2 (proj2 (proj2 (clamp01_saturates (ofZ (-3)))))));
      vm_compute; reflexivity.
  - apply (proj2 (proj2 (proj2 (proj2 (clamp01_saturates (ofZ 7))))));
      vm_compute; reflexivity.
Defined.

(** *** Silence *)

Lemma fold_zeros (n : nat) :
  fold_left (fun acc v : float => add acc (mul v v))
            (repeat (S754_zero false) n) (S754_zero false)
  = S754_zero false.
Proof. induction n as [|n IH]; [reflexivity|exact IH]. Qed.

(** X16. Digital silence measures as silence.  On binary64, at any
    sample rate, a frame of between 1 and [2^53 - 1] samples that are all
    zero has energy 0 and no pitch. *)
Theorem silent_frame (n : nat) (sampleRate : Z) :
  (1 <= n)%nat -> (Z.of_nat n < 2 ^ 53)%Z ->
  analyze (repeat (ofZ 0 : float) n) sampleRate
  = {| m_energy := ofZ 0; m_pitchHz := None |}.
Proof.
  intros Hn Hlt.
  assert (Hrms : rootMeanSquare (repeat (ofZ 0 : float) n) = S754_zero false).
  { unfold rootMeanSquare, sumSquares, len. rewrite repeat_length.
    change (ofZ 0 : float) with (S754_zero false). rewrite fold_zeros.
    destruct (Z.of_nat n) as [|p|p] eqn:Hp; try lia.
    destruct (of_Z_finite p Hlt) as (m & e & Hm).
    change (ofZ (Z.pos p) : float) with (of_Z (Z.pos p)). rewrite Hm.
    reflexivity. }
  unfold analyze, frameEnergy, estimatePitchHz. rewrite Hrms. reflexivity.
Qed.

Lemma silent_frame_witness :
  analyze (repeat (ofZ 0 : float) 2048) 44100
  = {| m_energy := ofZ 0; m_pitchHz := None |}.
Proof. apply silent_frame; [lia|reflexivity]. Defined.

End SaturationFacts.

Module ChallengeFacts.
Import Binary64 Binary64Facts EnergyFacts Session Challenge Rounds.
Import InvariantFacts NameFacts.

Lemma fround_not_nan (x : float) : is_finite x = true -> fround x <> nan.
Proof.
  unfold nan.
  destruct x as [s|s| |s m e]; try discriminate; intros _.
  unfold fround. destruct (0 <=? e)%Z; [discriminate|].
  match goal with |- context [(?z =? 0)%Z] => destruct z as [|p|p] end;
    cbn [Z.eqb]; try discriminate.
  - pose proof (binary_round_sign false p 0) as Hs.
      intros Heq. unfold of_Z, binary_normalize in Heq.
      rewrite Heq in Hs. exact Hs.
  - pose proof (binary_round_sign true p 0) as Hs.
    intros Heq. unfold of_Z, binary_normalize in Heq.
    rewrite Heq in Hs. exact Hs.
Qed.

Lemma clampScore_percent (x : float) :
  x <> nan -> percent (max (ofZ 0) (min (ofZ 100) x)) = true.
Proof.
  intros Hx. unfold percent.
  change (ofZ 0 : float) with (S754_zero false).
  change (ofZ 100 : float) with (S754_finite false 7036874417766400 (-46)).
  set (hundred := S754_finite false 7036874417766400 (-46)).
  destruct x as [s|s| |s m e].
  - destruct s; reflexivity.
  - destruct s; reflexivity.
  - now elim Hx.
  - change (min hundred (S754_finite s m e))
      with (if SFltb (S754_finite s m e) hundred
            then S754_finite s m e else hundred).
    destruct (SFltb (S754_finite s m e) hundred) eqn:Hlt; [|reflexivity].
    destruct s; [reflexivity|].
    change (max (S754_zero false) (S754_finite false m e))
      with (S754_finite false m e).
    change (leb (S754_zero false) (S754_finite false m e)) with true.
    apply ltb_leb. exact Hlt.
Qed.

(** X17. What a challenge link can store.  On binary64, whatever
    [Number] makes of the text of the [score] parameter: when
    [readChallengeFromUrl] stores a challenge, the name is the first 18
    characters of a non-empty [name] parameter, hence non-empty and of
    at most 18 characters, the [score] parameter is non-empty and
    denotes a finite number, and the stored score is that number
    rounded and clamped, which lies in [0, 100].  It stores nothing
    exactly when the name is missing or empty, the score is missing or
    empty, or the score does not denote a finite number. *)
Theorem readChallengeFromUrl_stores
    (toNumber : string -> float) (name scoreRaw : option string) :
  (forall (nm : string) (sc : float),
      readChallengeFromUrl toNumber name scoreRaw = Some (nm, sc) ->
      (String.length nm <= 18)%nat /\ nm <> EmptyString
      /\ percent sc = true
      /\ exists n raw,
           name = Some n /\ nm = String.substring 0 18 n
           /\ scoreRaw = Some raw /\ raw <> EmptyString
           /\ is_finite (toNumber raw) = true
           /\ sc = clampScore (toNumber raw))
  /\ (readChallengeFromUrl toNumber name scoreRaw = None
      <-> name = None \/ name = Some EmptyString
          \/ scoreRaw = None \/ scoreRaw = Some EmptyString
          \/ exists raw, scoreRaw = Some raw
                         /\ is_finite (toNumber raw) = false).
Proof.
  unfold readChallengeFromUrl.
  destruct name as [[|c n]|], scoreRaw as [[|d raw]|];
    try (split; [discriminate|]; split; auto; intros _; auto 6).
  change (isFinite (toNumber (String d raw)))
    with (is_finite (toNumber (String d raw))).
  destruct (is_finite (toNumber (String d raw))) eqn:Hfin.
  - split.
    + intros nm sc [= <- <-].
      split; [apply (substring_length_le 18 (String c n))|].
      split; [discriminate|].
      split.
      * apply clampScore_percent, fround_not_nan, Hfin.
      * exists (String c n), (String d raw).
        repeat split; auto; discriminate.
    + split; [discriminate|].
      intros [H|[H|[H|[H|(r & [= <-] & H)]]]]; congruence.
  - split; [discriminate|]. split; auto.
    intros _. do 4 right. now exists (String d raw).
Qed.

Lemma readChallengeFromUrl_stores_witness :
  readChallengeFromUrl (fun _ => ofZ 250 : float) (Some "Ada"%string)
                       (Some "250"%string)
  = Some ("Ada"%string, ofZ 100)
  /\ percent (ofZ 100) = true.
Proof.
  split; [reflexivity|].
  exact (proj1 (proj2 (proj2
    (proj1 (readChallengeFromUrl_stores (fun _ => ofZ 250)
              (Some "Ada"%string) (Some "250"%string))
       "Ada"%string (ofZ 100) eq_refl)))).
Defined.

(** X18. In exact arithmetic the score a challenge link stores,
    [Math.max(0, Math.min(100, Math.round(score)))], is a whole number
    between 0 and 100, whatever the score in the link. *)
Theorem clampScore_whole (x : R) :
  exists k : Z, (0 <= k <= 100)%Z /\ clampScore x = IZR k.
Proof.
  unfold clampScore. cbn [max min round ofZ Ideal.number].
  set (z := Int_part (x + / 2)).
  exists (Z.max 0 (Z.min 100 z)). split; [lia|].
  unfold Rmax, Rmin.
  destruct (Rle_dec 100 (IZR z)) as [Hle|Hgt].
  - apply le_IZR in Hle.
    destruct (Rle_dec 0 100); [|lra]. f_equal. lia.
  - apply Rnot_le_lt, lt_IZR in Hgt.
    destruct (Rle_dec 0 (IZR z)) as [Hz|Hz].
    + apply le_IZR in Hz. f_equal. lia.
    + apply Rnot_le_lt, lt_IZR in Hz. f_equal. lia.
Qed.

(** X19. All the entries of a session carry the same mode.  On a
    component constructed with nothing in storage, after any sequence of
    events every entry of the leaderboard is marked [challenge] if the
    link stored a challenge and [local] if it did not. *)
Theorem session_mode {T} `{Number T}
    (toNumber : string -> T) (name scoreRaw : option string)
    (evs : list Event) :
  let s := run (openLink toNumber name scoreRaw initial) evs in
  let m := match readChallengeFromUrl toNumber name scoreRaw with
           | Some _ => challenge
           | None => local
           end in
  Forall (fun entry => mode entry = m) (leaderboard s).
Proof.
  cbv zeta.
  set (m := match readChallengeFromUrl toNumber name scoreRaw with
            | Some _ => challenge
            | None => local
            end).
  set (keeps := fun s : App T =>
         match challengeScore s with Some _ => challenge | None => local end
         = m
         /\ Forall (fun entry => mode entry = m) (leaderboard s)).
  assert (Hstep : forall s ev, keeps s -> keeps (step s ev)).
  { intros s ev [Hc Hb].
    destruct ev as [rate| | |now1 now2|buf|]; cbn [step]; unfold keeps;
      auto.
    - unfold startRound.
      destruct (negb (analyser s) || negb (timeData s)); auto.
    - unfold tick. destruct (negb (roundTimerId s)); auto.
      destruct (_ <=? 0)%Z; auto.
      unfold finishRound; cbn [challengeScore leaderboard].
      split; [exact Hc|].
      apply updateLeaderboard_Forall; [exact Hc|exact Hb].
    - unfold loop.
      destruct (negb (analyser s) || negb (timeData s)); auto. }
  assert (Hrun : forall evs s, keeps s -> keeps (run s evs)).
  { intros l; induction l as [|ev l IH]; intros s Hs; [exact Hs|].
    cbn. apply IH, Hstep, Hs. }
  apply Hrun. unfold keeps, openLink, m.
  destruct (readChallengeFromUrl toNumber name scoreRaw) as [[nm sc]|];
    cbn; auto.
Qed.

End ChallengeFacts.

(** ** The breakdown *)

Module BreakdownFacts.
Import CurveFacts.

Section Generic.

Context {T : Type} `{Number T}.

Lemma filter_idem {A} (f : A -> bool) (l : list A) :
  filter f (filter f l) = filter f l.
Proof.
  induction l as [|x l IH]; [reflexivity|].
  cbn [filter]. destruct (f x) eqn:Hx; [|exact IH].
  cbn [filter]. now rewrite Hx, IH.
Qed.

Lemma cleaned_idem (pitches : list T) :
  cleaned (cleaned pitches) = cleaned pitches.
Proof. apply filter_idem. Qed.

Lemma stability_of_cleaned (pitches : list T) :
  computePitchStability (cleaned pitches) = computePitchStability pitches.
Proof.
  pose proof (cleaned_length pitches) as Hle.
  unfold computePitchStability. cbv zeta. rewrite cleaned_idem.
  destruct (Nat.ltb_spec (length (cleaned pitches)) 8) as [Hc|Hc].
  - now destruct (length pitches <? 8)%nat.
  - destruct (Nat.ltb_spec (length pitches) 8); [lia|reflexivity].
Qed.

Lemma variety_of_cleaned (pitches : list T) :
  computePitchVariety (cleaned pitches) = computePitchVariety pitches.
Proof.
  pose proof (cleaned_length pitches) as Hle.
  unfold computePitchVariety. cbv zeta. rewrite cleaned_idem.
  destruct (Nat.ltb_spec (length (cleaned pitches)) 8) as [Hc|Hc].
  - now destruct (length pitches <? 8)%nat.
  - destruct (Nat.ltb_spec (length pitches) 8); [lia|reflexivity].
Qed.

End Generic.

(** X20. Pitches outside the vocal band never reach the score.  On any
    carrier, scoring a pitch sequence and scoring what the [80, 800]
    filter keeps of it give the same breakdown, and two sequences with
    the same filtered samples have the same stability and variety.  On
    binary64 the filter drops every NaN; in exact arithmetic it keeps
    exactly the pitches from 80 to 800 Hz. *)
Theorem out_of_band_pitches_ignored :
  (forall (T : Type) (N : Number T) (energySamples pitchSamples : list T),
      computeScore energySamples (cleaned pitchSamples)
      = computeScore energySamples pitchSamples)
  /\ (forall (T : Type) (N : Number T) (p q : list T),
      cleaned p = cleaned q ->
      computePitchStability p = computePitchStability q
      /\ computePitchVariety p = computePitchVariety q)
  /\ (forall pitches : list Binary64.float,
      ~ In Binary64.nan (cleaned pitches))
  /\ (forall (pitches : list R) (p : R),
      In p (cleaned pitches) <-> In p pitches /\ (80 <= p <= 800)%R).
Proof.
  split; [|split; [|split]].
  - intros T N es ps. unfold computeScore.
    now rewrite stability_of_cleaned, variety_of_cleaned.
  - intros T N p q Heq.
    rewrite <- (stability_of_cleaned p), <- (variety_of_cleaned p), Heq.
    now rewrite stability_of_cleaned, variety_of_cleaned.
  - intros ps Hin. apply filter_In in Hin as [_ Hband]. discriminate Hband.
  - intros ps p. unfold cleaned. rewrite filter_In.
    unfold inVocalBand. cbn [leb ofZ Ideal.number]. unfold Ideal.Rleb.
    destruct (Rle_dec 80 p), (Rle_dec p 800); cbn;
      split; intros [Hin Hb]; split; auto; try discriminate; lra.
Qed.

Lemma out_of_band_pitches_ignored_witness :
  computePitchStability (Samples.steadyPitch ++ [ofZ 40; ofZ 9000])
  = computePitchStability Samples.steadyPitch.
Proof.
  refine (proj1 (proj1 (proj2 out_of_band_pitches_ignored)
                   Binary64.float _
                   (Samples.steadyPitch ++ [ofZ 40; ofZ 9000])
                   Samples.steadyPitch _)).
  vm_compute. reflexivity.
Defined.

Local Open Scope R_scope.






(** *** The energy score *)







(** *** The order of the samples *)








(** *** A held note *)

Lemma semitone_above_one : 1 < Rpower 2 (/ 12).
Proof.
  unfold Rpower. rewrite <- exp_0 at 1. apply exp_increasing.
  apply Rmult_lt_0_compat; [lra|].
  rewrite <- ln_1. apply ln_increasing; lra.
Qed.

Lemma countMoves_repeat (p : R) (n : nat) :
  0 < p -> countMoves (repeat p n) = 0%nat.
Proof.
  intros Hp. induction n as [|n IH]; [reflexivity|].
  destruct n as [|n]; [reflexivity|].
  change (repeat p (S (S n))) with (p :: p :: repeat p n).
  change (countMoves (p :: p :: repeat p n))
    with ((if Ideal.Rleb (Rpower 2 (/ 12)) (ratio p p) then 1 else 0)
          + countMoves (repeat p (S n)))%nat.
  rewrite IH. unfold ratio. cbn [ltb div Ideal.number].
  unfold Ideal.Rltb, Ideal.Rleb. destruct (Rlt_dec p p); [lra|].
  replace (p / p) with 1 by (field; lra).
  pose proof semitone_above_one.
  destruct (Rle_dec (Rpower 2 (/ 12)) 1); [lra|reflexivity].
Qed.

Lemma sumOf_zero (l : list R) :
  Forall (fun x => x = 0) l -> sumOf l = 0.
Proof.
  induction 1 as [|x l -> _ IH]; [reflexivity|].
  change (sumOf (0 :: l)) with (0 + sumOf l). lra.
Qed.

Lemma sumOf_repeat (p : R) (n : nat) : sumOf (repeat p n) = INR n * p.
Proof.
  induction n as [|n IH]; [cbn; lra|].
  change (sumOf (repeat p (S n))) with (p + sumOf (repeat p n)).
  rewrite IH, S_INR. lra.
Qed.

Lemma standardDeviation_repeat (p : R) (n : nat) :
  (1 <= n)%nat -> standardDeviation (repeat p n) = 0.
Proof.
  intros Hn. unfold standardDeviation, meanOf.
  rewrite repeat_length, sumOf_repeat.
  assert (Hpos : 0 < INR n) by (apply lt_0_INR; lia).
  replace (INR n * p / INR n) with p by (field; lra).
  rewrite sumOf_zero.
  - unfold Rdiv. rewrite Rmult_0_l. apply sqrt_0.
  - apply Forall_forall. intros x Hx. apply in_map_iff in Hx.
    destruct Hx as (y & <- & Hy). apply repeat_spec in Hy. subst y. lra.
Qed.

(** X24. A held note.  In exact arithmetic, at least 8 samples of one
    and the same pitch between 80 and 800 Hz have stability 1 and
    variety 0. *)
Theorem held_note (p : R) (n : nat) :
  80 <= p <= 800 -> (8 <= n)%nat ->
  computePitchStability (repeat p n) = 1
  /\ computePitchVariety (repeat p n) = 0.
Proof.
  intros Hp Hn.
  assert (Hc : cleaned (repeat p n) = repeat p n).
  { apply cleaned_in_band, Forall_forall.
    intros x Hx. apply repeat_spec in Hx. now subst. }
  assert (Hlen : (8 <= length (cleaned (repeat p n)))%nat).
  { now rewrite Hc, repeat_length. }
  split.
  - rewrite (stability_enough _ Hlen), Hc.
    rewrite populationStd_standardDeviation, standardDeviation_repeat by lia.
    apply (proj1 (stabilityOfStd_pieces 0)). lra.
  - rewrite (variety_enough _ Hlen), Hc.
    apply (proj1 (proj2 (proj2 (proj2 (varietyOfRate_shape _))))).
    unfold moveRate. rewrite countMoves_repeat by lra.
    cbn [div ofZ Ideal.number Z.of_nat]. unfold Rdiv. lra.
Qed.

Lemma held_note_witness :
  computePitchStability (repeat 200 10) = 1
  /\ computePitchVariety (repeat 200 10) = 0.
Proof. apply held_note; [lra|lia]. Defined.

End BreakdownFacts.

(** ** The meters *)

Module MeterFacts.
Import Binary64 Binary64Facts FrameFacts Session Rounds Sessions.
Import BreakdownFacts.

(** *** NaN on the meters and in the scores *)

Lemma levelBar_nan_step (s : App float) (ev : Event) :
  levelBar s = nan -> levelBar (step s ev) = nan.
Proof.
  intros Hl.
  destruct ev as [rate| | |now1 now2|buf|]; cbn [step]; auto.
  - unfold startRound.
    destruct (negb (analyser s) || negb (timeData s)); auto.
  - unfold tick. destruct (negb (roundTimerId s)); auto.
    destruct (_ <=? 0)%Z; auto.
  - unfold loop.
    destruct (negb (analyser s) || negb (timeData s)); auto.
    cbn [levelBar]. rewrite Hl. reflexivity.
Qed.

(** X25. One degenerate frame spoils the level bar for good.  On
    binary64, with the microphone enabled, a frame that is empty or
    holds a NaN sample sets [energy] to NaN and [levelBar] to NaN, and
    [levelBar] is then NaN after any further events: the smoothing
    [levelBar * 0.85 + energy * 0.15] never recovers. *)
Theorem degenerate_frame_spoils_levelBar
    (s : App float) (buf : list float) (evs : list Event) :
  micOn s -> buf = [] \/ In nan buf ->
  energy (loop buf s) = nan /\ levelBar (run (loop buf s) evs) = nan.
Proof.
  intros [Ha Ht] Hdeg.
  assert (He : energy (loop buf s) = nan /\ levelBar (loop buf s) = nan).
  { unfold loop. rewrite Ha, Ht. cbn [negb orb energy levelBar].
    rewrite (frameEnergy_degenerate buf Hdeg). split; [reflexivity|].
    apply add_nan_r. }
  destruct He as [He Hl]. split; [exact He|].
  revert Hl. generalize (loop buf s). clear.
  induction evs as [|ev evs IH]; intros s Hl; [exact Hl|].
  cbn. apply IH, levelBar_nan_step, Hl.
Qed.

Lemma degenerate_frame_spoils_levelBar_witness :
  levelBar (run (loop Samples.nanFrame (enableMic 44100 initial))
                [Frame Samples.clippedFrame; Frame Samples.clippedFrame])
  = nan.
Proof.
  apply (degenerate_frame_spoils_levelBar (enableMic 44100 initial)
           Samples.nanFrame).
  - split; reflexivity.
  - right. left. reflexivity.
Defined.

Lemma energyScore_nan (es : list float) : In nan es -> energyScore es = nan.
Proof.
  intros Hin. unfold energyScore, avgEnergy.
  destruct es as [|e es]; [contradiction|].
  rewrite (sum_nan _ Hin). reflexivity.
Qed.

Lemma personalBest_nan_step (s : App float) (ev : Event)
    (best : ScoreEntry float) :
  personalBest s = Some best -> score best = nan ->
  personalBest (step s ev) = Some best.
Proof.
  intros Hb Hn.
  destruct ev as [rate| | |now1 now2|buf|]; cbn [step]; auto.
  - unfold startRound.
    destruct (negb (analyser s) || negb (timeData s)); auto.
  - unfold tick. destruct (negb (roundTimerId s)); auto.
    destruct (_ <=? 0)%Z; auto.
    unfold finishRound; cbn [personalBest]. rewrite Hb, Hn. reflexivity.
  - unfold loop.
    destruct (negb (analyser s) || negb (timeData s)); auto.
Qed.

(** X26. A NaN score sticks.  On binary64, a round that recorded a NaN
    energy has NaN for its score and its energy percentage; and a
    personal best whose score is NaN is never replaced, whatever
    happens afterwards, since no score compares above NaN.  A first
    round of ten seconds whose only frame holds a NaN sample leaves
    such a personal best. *)
Theorem nan_score_sticks :
  (forall es ps : list float,
      In nan es ->
      Engine.score (computeScore es ps) = nan
      /\ Engine.energy (computeScore es ps) = nan)
  /\ (forall (s : App float) (best : ScoreEntry float) (evs : list Event),
      personalBest s = Some best -> score best = nan ->
      personalBest (run s evs) = Some best)
  /\ personalBest spoiltRound = Some spoiltEntry.
Proof.
  split; [|split].
  - intros es ps Hin. unfold computeScore; cbn [Engine.score Engine.energy].
    rewrite (energyScore_nan es Hin). split; reflexivity.
  - intros s best evs. revert s.
    induction evs as [|ev evs IH]; intros s Hb Hn; [exact Hb|].
    cbn. apply IH; [|exact Hn]. now apply personalBest_nan_step.
  - vm_compute. reflexivity.
Qed.

Lemma nan_score_sticks_witness :
  personalBest (run spoiltRound loudRound) = Some spoiltEntry.
Proof.
  apply (proj1 (proj2 nan_score_sticks) spoiltRound spoiltEntry loudRound).
  - vm_compute. reflexivity.
  - reflexivity.
Defined.

(** *** The meters in exact arithmetic *)

Local Open Scope R_scope.



End MeterFacts.

(** ** Semitones *)

Module SemitoneFacts.
Import NoteMapper NoteFacts.

Local Open Scope R_scope.









End SemitoneFacts.
